(** * dml_manager: the search-criteria compiler of [DMLManager._where]

    A shallow embedding of [src/dml_manager/_dml_manager.py], lines 1213-1584:
    the class methods [and_] and [or_], the field lookup [_get_table_field],
    and the inner class [_where] which compiles a search criteria (a list of
    triplets and of the markers ['&'] and ['|'], in prefix notation) into one
    SQLAlchemy condition.

    Python values are modelled by the type [pyval]; a Python exception is an
    [exn] carried by the monad [M], which also keeps the list of the
    expressions the SQLAlchemy constructors have built so far. *)

From Stdlib Require Import String Ascii ZArith Bool Arith Lia List Permutation.
Import ListNotations.
Local Open Scope string_scope.
Local Open Scope list_scope.
Local Open Scope nat_scope.
#[local] Set Warnings "-register-all".

(** ** Python values *)

(** The values a search criteria is made of: [int], [str], [list] and
    [tuple] ([_typing.py]: a triplet is a tuple, its value an int, a str
    or a list of int; a marker is a str). A [float] value is handled by the
    source like an int and is left out. *)
Inductive pyval : Type :=
| PInt (n : Z)
| PStr (s : string)
| PList (l : list pyval)
| PTuple (l : list pyval).

(** The built-in exceptions the compiler can raise. *)
Inductive exn : Type :=
| IndexError      (* list index out of range *)
| ValueError      (* wrong number of values to unpack *)
| KeyError        (* key absent from a dict *)
| TypeError       (* unhashable key, value that is not iterable or subscriptable *)
| AttributeError. (* [getattr] on a name the table does not have *)

(** [hash(v)] succeeds on ints, strs and tuples of hashable values. *)
Fixpoint hashable (v : pyval) : bool :=
  match v with
  | PInt _ | PStr _ => true
  | PList _ => false
  | PTuple l => forallb hashable l
  end.

Definition isinstance_tuple (v : pyval) : bool :=
  match v with PTuple _ => true | _ => false end.

Definition isinstance_list (v : pyval) : bool :=
  match v with PList _ => true | _ => false end.

(** [len(v)] on a list, a tuple or a str; an int has no length (the
    source asks for the length of a list only). *)
Definition len (v : pyval) : nat :=
  match v with
  | PList l | PTuple l => List.length l
  | PStr s => String.length s
  | PInt _ => 0
  end.

(** The characters of a str, each as a str of length one. *)
Fixpoint chars (s : string) : list pyval :=
  match s with
  | EmptyString => []
  | String c s' => PStr (String c EmptyString) :: chars s'
  end.

(** ** Tables and SQL expressions *)

(** A mapped table: its name and the names of its columns, which
    [getattr] resolves on it. *)
Record Mapper : Type := { tablename : string; attrs : list string }.

(** An [InstrumentedAttribute]: a column of a table. *)
Record column : Type := { col_table : string; col_name : string }.

Inductive cmp : Type := OpEq | OpNe | OpGt | OpGe | OpLt | OpLe.

(** What the functions of [_where] return: the SQLAlchemy expression built,
    one constructor per SQLAlchemy operator the source calls, Python's
    [None] (the empty search criteria), or a Python bool (a comparison on
    an attribute of the class that is not a column). *)
Inductive condition : Type :=
| PyNone
| PyBool (b : bool)
| Compare (op : cmp) (c : column) (value : pyval)
| Between (c : column) (lo hi : pyval)
| In_ (c : column) (value : pyval)
| NotIn (c : column) (value : pyval)
| Contains (c : column) (value : pyval)
| RegexpMatch (c : column) (value : pyval) (flags : option string)
| Not_ (q : condition)
| And_ (q1 q2 : condition)
| Or_ (q1 q2 : condition).

(** ** The monad: exceptions and the construction log *)

Inductive outcome (A : Type) : Type :=
| Return (a : A)
| Raise (e : exn)
| OutOfFuel.
Arguments Return {A} a.
Arguments Raise {A} e.
Arguments OutOfFuel {A}.

(** The log lists, oldest first, every expression a SQLAlchemy constructor
    has returned. It outlives an exception. *)
Definition log : Type := list condition.

Definition M (A : Type) : Type := log -> outcome A * log.

Definition ret {A} (a : A) : M A := fun s => (Return a, s).

Definition raise {A} (e : exn) : M A := fun s => (Raise e, s).

Definition out_of_fuel {A} : M A := fun s => (OutOfFuel, s).

Definition bind {A B} (m : M A) (k : A -> M B) : M B :=
  fun s =>
    match m s with
    | (Return a, s') => k a s'
    | (Raise e, s') => (Raise e, s')
    | (OutOfFuel, s') => (OutOfFuel, s')
    end.

Declare Scope py_scope.
Delimit Scope py_scope with py.
Notation "x <- m ;; k" := (bind m (fun x => k))
  (at level 61, m at next level, right associativity) : py_scope.
Notation "' pat <- m ;; k" := (bind m (fun x => match x with pat => k end))
  (at level 61, pat pattern, m at next level, right associativity) : py_scope.
Local Open Scope py_scope.

(** A SQLAlchemy constructor returns the expression and records it. *)
Definition construct (q : condition) : M condition :=
  fun s => (Return q, s ++ [q]).

(** ** Python primitives *)

(** [l[i]] on a list, [i >= 0]. *)
Definition getitem (l : list pyval) (i : nat) : M pyval :=
  match nth_error l i with
  | Some x => ret x
  | None => raise IndexError
  end.

(** [l[-1]]. *)
Definition getitem_last (l : list pyval) : M pyval :=
  match l with
  | [] => raise IndexError
  | x :: l' => ret (last l' x)
  end.

(** [l[a:b]], [0 <= a], [0 <= b]: a slice never raises. *)
Definition slice (l : list pyval) (a b : nat) : list pyval :=
  skipn a (firstn b l).

(** [value[i]] on any value. *)
Definition subscript (value : pyval) (i : nat) : M pyval :=
  match value with
  | PList l | PTuple l => getitem l i
  | PStr s => getitem (chars s) i
  | PInt _ => raise TypeError
  end.

(** [(a, b, c) = l] on a list. *)
Definition unpack3_list (l : list pyval) : M (pyval * pyval * pyval) :=
  match l with
  | [a; b; c] => ret (a, b, c)
  | _ => raise ValueError
  end.

(** [(a, b, c) = value] on any value: it is iterated, then counted. *)
Definition unpack3 (value : pyval) : M (pyval * pyval * pyval) :=
  match value with
  | PList l | PTuple l => unpack3_list l
  | PStr s => unpack3_list (chars s)
  | PInt _ => raise TypeError
  end.

Fixpoint assoc {V} (k : string) (d : list (string * V)) : option V :=
  match d with
  | [] => None
  | (k', v) :: d' => if String.eqb k k' then Some v else assoc k d'
  end.

(** [d[key]] on a dict whose keys are strs. *)
Definition dict_getitem {V} (d : list (string * V)) (key : pyval) : M V :=
  if hashable key then
    match key with
    | PStr k => match assoc k d with
                | Some v => ret v
                | None => raise KeyError
                end
    | _ => raise KeyError
    end
  else raise TypeError.

(** A [for] loop whose body ends in [return] on each of its paths: the
    first iteration decides, and an empty range falls off the end of the
    function, which returns [None]. *)
Definition for_returning (range : list nat) (body : nat -> M condition)
  : M condition :=
  match range with
  | [] => ret PyNone
  | i :: _ => body i
  end.

(** ** SQLAlchemy: the constructors the source calls

    Each returns the expression it is asked for. What SQLAlchemy itself
    may refuse in a value (a scalar given to [in_], say) is not modelled:
    the failures kept are those of the source's own operations. *)

Module sqlalchemy.

Definition compare (op : cmp) (c : column) (value : pyval) : M condition :=
  construct (Compare op c value).

Definition between (c : column) (lo hi : pyval) : M condition :=
  construct (Between c lo hi).

Definition in_ (c : column) (value : pyval) : M condition :=
  construct (In_ c value).

Definition not_in (c : column) (value : pyval) : M condition :=
  construct (NotIn c value).

Definition contains (c : column) (value : pyval) : M condition :=
  construct (Contains c value).

Definition regexp_match (c : column) (value : pyval) (flags : option string)
  : M condition :=
  construct (RegexpMatch c value flags).

Definition not_ (q : condition) : M condition := construct (Not_ q).

Definition and_ (q1 q2 : condition) : M condition := construct (And_ q1 q2).

Definition or_ (q1 q2 : condition) : M condition := construct (Or_ q1 q2).

End sqlalchemy.

(** ** The attributes of a mapped class

    [getattr] resolves the columns of the class, and attributes that are
    not columns. Of these the model keeps the one the source itself reads
    (line 148): [__tablename__], a str. *)
Inductive attribute : Type :=
| InstrumentedAttribute (c : column)
| StrAttribute (s : string).

(** [s op value] on a str [s]: Python's own comparison, which returns a
    bool and builds nothing; a str is ordered with a str only. *)
Definition str_compare (op : cmp) (s : string) (value : pyval) : M condition :=
  match value with
  | PStr t =>
      ret (PyBool (match op with
                   | OpEq => String.eqb s t | OpNe => negb (String.eqb s t)
                   | OpGt => String.ltb t s | OpGe => String.leb t s
                   | OpLt => String.ltb s t | OpLe => String.leb s t
                   end))
  | _ =>
      match op with
      | OpEq => ret (PyBool false)
      | OpNe => ret (PyBool true)
      | _ => raise TypeError
      end
  end.

(** [a op value]: the operator of a column builds an expression. *)
Definition compare_attribute (op : cmp) (a : attribute) (value : pyval)
  : M condition :=
  match a with
  | InstrumentedAttribute c => sqlalchemy.compare op c value
  | StrAttribute s => str_compare op s value
  end.

(** [a.between], [a.in_], [a.not_in], [a.contains], [a.regexp_match]:
    methods of a column, which a str has not; the method is looked up
    before its arguments are evaluated. *)
Definition column_method (a : attribute) (method : column -> M condition)
  : M condition :=
  match a with
  | InstrumentedAttribute c => method c
  | StrAttribute _ => raise AttributeError
  end.

(** ** [class DMLManager] *)

Module DMLManager.

Definition CriteriaStructure : Type := list pyval.

Definition OperatorCallback : Type := Mapper -> pyval -> pyval -> M condition.

(** [and_(cls, cs_1, cs_2)], lines 1213-1246. *)
Definition and_ (cs_1 cs_2 : CriteriaStructure) : CriteriaStructure :=
  if negb (length cs_1 =? 0) && negb (length cs_2 =? 0) then
    PStr "&" :: cs_1 ++ cs_2
  else if negb (length cs_1 =? 0) then cs_1
  else cs_2.

(** [or_(cls, cs_1, cs_2)], lines 1248-1281. *)
Definition or_ (cs_1 cs_2 : CriteriaStructure) : CriteriaStructure :=
  if negb (length cs_1 =? 0) && negb (length cs_2 =? 0) then
    PStr "|" :: cs_1 ++ cs_2
  else if negb (length cs_1 =? 0) then cs_1
  else cs_2.

(** [_get_table_field(cls, table, field)]: [getattr(table, field)]. *)
Definition _get_table_field (table : Mapper) (field : pyval) : M attribute :=
  match field with
  | PStr f =>
      if existsb (String.eqb f) (attrs table)
      then ret (InstrumentedAttribute
                  {| col_table := tablename table; col_name := f |})
      else if String.eqb f "__tablename__"
      then ret (StrAttribute (tablename table))
      else raise AttributeError
  | _ => raise TypeError
  end.

(** [class _where] *)

(** [_comparison_operation], lines 1330-1344. *)
Definition _comparison_operation : list (string * OperatorCallback) :=
  [ ("=", fun table field value =>
       a <- _get_table_field table field ;; compare_attribute OpEq a value);
    ("!=", fun table field value =>
       a <- _get_table_field table field ;; compare_attribute OpNe a value);
    (">", fun table field value =>
       a <- _get_table_field table field ;; compare_attribute OpGt a value);
    (">=", fun table field value =>
       a <- _get_table_field table field ;; compare_attribute OpGe a value);
    ("<", fun table field value =>
       a <- _get_table_field table field ;; compare_attribute OpLt a value);
    ("<=", fun table field value =>
       a <- _get_table_field table field ;; compare_attribute OpLe a value);
    ("><", fun table field value =>
       a <- _get_table_field table field ;;
       column_method a (fun c =>
         lo <- subscript value 0 ;;
         hi <- subscript value 1 ;;
         sqlalchemy.between c lo hi));
    ("in", fun table field value =>
       a <- _get_table_field table field ;;
       column_method a (fun c => sqlalchemy.in_ c value));
    ("not in", fun table field value =>
       a <- _get_table_field table field ;;
       column_method a (fun c => sqlalchemy.not_in c value));
    ("ilike", fun table field value =>
       a <- _get_table_field table field ;;
       column_method a (fun c => sqlalchemy.contains c value));
    ("not ilike", fun table field value =>
       a <- _get_table_field table field ;;
       q <- column_method a (fun c => sqlalchemy.contains c value) ;;
       sqlalchemy.not_ q);
    ("~", fun table field value =>
       a <- _get_table_field table field ;;
       column_method a (fun c => sqlalchemy.regexp_match c value None));
    ("~*", fun table field value =>
       a <- _get_table_field table field ;;
       column_method a (fun c => sqlalchemy.regexp_match c value (Some "i"))) ].

(** [_logic_operation], lines 1377-1380. *)
Definition _logic_operation
  : list (string * (condition -> condition -> M condition)) :=
  [ ("|", fun condition_1 condition_2 => sqlalchemy.or_ condition_1 condition_2);
    ("&", fun condition_1 condition_2 => sqlalchemy.and_ condition_1 condition_2) ].

(** [_is_triplet(cls, value)], lines 1573-1584: [and] binds tighter than
    [or], so the length is asked of a list only. *)
Definition _is_triplet (value : pyval) : bool :=
  isinstance_tuple value || (isinstance_list value && (len value =? 3)).

(** [_create_individual_query(cls, table, fragment)], lines 1531-1571. *)
Definition _create_individual_query (table : Mapper) (fragment : pyval)
  : M condition :=
  '(field, op, value) <- unpack3 fragment ;;
  callback <- dict_getitem _comparison_operation op ;;
  callback table field value.

(** [_merge_queries(cls, op, condition_1, condition_2)], lines 1502-1529. *)
Definition _merge_queries (op : pyval) (condition_1 condition_2 : condition)
  : M condition :=
  callback <- dict_getitem _logic_operation op ;;
  callback condition_1 condition_2.

(** One iteration of the loop of [_build_where], lines 1454-1500;
    [self] is [_build_where] itself. The arguments of a call are
    evaluated from left to right, before the call. *)
Definition _build_where_iteration
    (self : Mapper -> CriteriaStructure -> M condition)
    (table : Mapper) (search_criteria : CriteriaStructure) (i : nat)
  : M condition :=
  x1 <- getitem search_criteria i ;;
  let istriplet_1 := _is_triplet x1 in
  x2 <- getitem search_criteria (i + 1) ;;
  let istriplet_2 := _is_triplet x2 in
  x3 <- getitem search_criteria (i + 2) ;;
  let istriplet_3 := _is_triplet x3 in
  if negb istriplet_1 && istriplet_2 && istriplet_3 then
    '(op, condition_1, condition_2) <-
       unpack3_list (slice search_criteria i (i + 3)) ;;
    q1 <- _create_individual_query table condition_1 ;;
    q2 <- _create_individual_query table condition_2 ;;
    _merge_queries op q1 q2
  else
    op <- getitem search_criteria i ;;
    if istriplet_2 then
      x <- getitem search_criteria (i + 1) ;;
      q1 <- _create_individual_query table x ;;
      q2 <- self table (slice search_criteria (i + 2) (length search_criteria)) ;;
      _merge_queries op q1 q2
    else
      q1 <- self table (slice search_criteria (i + 1) (length search_criteria - 1)) ;;
      x <- getitem_last search_criteria ;;
      q2 <- _create_individual_query table x ;;
      _merge_queries op q1 q2.

(** The body of [_build_where], lines 1445-1500. *)
Definition _build_where_body
    (self : Mapper -> CriteriaStructure -> M condition)
    (table : Mapper) (search_criteria : CriteriaStructure)
  : M condition :=
  if length search_criteria =? 1 then
    match search_criteria with
    | [triplet] => _create_individual_query table triplet
    | _ => raise ValueError
    end
  else
    for_returning (seq 0 (length search_criteria))
      (_build_where_iteration self table search_criteria).

(** [_build_where] run with a bound on the number of its activations
    that may be live at once: [fuel] counts the outermost call and the
    nested recursive calls below it. *)
Fixpoint _build_where_fuel (fuel : nat) (table : Mapper)
    (search_criteria : CriteriaStructure) : M condition :=
  match fuel with
  | 0 => out_of_fuel
  | S fuel' => _build_where_body (_build_where_fuel fuel') table search_criteria
  end.

(** [_build_where(cls, table, search_criteria)], lines 1402-1500. The
    bound is never reached (lemma [_build_where_fuel_enough]). *)
Definition _build_where (table : Mapper) (search_criteria : CriteriaStructure)
  : M condition :=
  _build_where_fuel (S (length search_criteria)) table search_criteria.

End DMLManager.

Import DMLManager.

(** ** The types of [_typing.py] *)

Definition ComparisonOperator : list string :=
  ["="; "!="; ">"; ">="; "<"; "<="; "><"; "in"; "not in"; "ilike";
   "not ilike"; "~"; "~*"].

Definition LogicOperator : list string := ["&"; "|"].

Definition is_LogicOperator (v : pyval) : bool :=
  match v with
  | PStr s => existsb (String.eqb s) LogicOperator
  | _ => false
  end.

Definition is_TripletValue (v : pyval) : bool :=
  match v with
  | PInt _ | PStr _ => true
  | PList l => forallb (fun x => match x with PInt _ => true | _ => false end) l
  | PTuple _ => false
  end.

(** [TripletStructure = tuple[str, ComparisonOperator, TripletValue]]. *)
Definition is_TripletStructure (v : pyval) : bool :=
  match v with
  | PTuple [PStr _; PStr op; value] =>
      existsb (String.eqb op) ComparisonOperator && is_TripletValue value
  | _ => false
  end.

(** [CriteriaStructure = list[Union[LogicOperator, TripletStructure]]]. *)
Definition is_CriteriaStructure (cs : list pyval) : bool :=
  forallb (fun v => is_LogicOperator v || is_TripletStructure v) cs.

Definition count_markers (cs : list pyval) : nat :=
  List.length (filter is_LogicOperator cs).

(** The span [_build_where] calls itself on, when its branches reach a
    recursive call: none on fewer than three elements or on a marker
    followed by two triplets, [search_criteria[2:]] when the second
    element is a triplet, [search_criteria[1:-1]] otherwise. *)
Definition recursive_span (cs : list pyval) : option (list pyval) :=
  match cs with
  | x1 :: x2 :: x3 :: _ =>
      if negb (_is_triplet x1) && _is_triplet x2 && _is_triplet x3 then None
      else if _is_triplet x2 then Some (slice cs 2 (List.length cs))
      else Some (slice cs 1 (List.length cs - 1))
  | _ => None
  end.

(** A search criteria led by a marker. *)
Definition marker_led (cs : list pyval) : bool :=
  match cs with
  | m :: _ => is_LogicOperator m
  | [] => false
  end.


(** The column [getattr(table, f)] returns. *)
Definition column_of (table : Mapper) (f : string) : column :=
  {| col_table := tablename table; col_name := f |}.

(** The triplets of the example of the specification. *)
Definition partner_14418 : pyval := PTuple [PStr "partner_id"; PStr "="; PInt 14418].
Definition partner_14417 : pyval := PTuple [PStr "partner_id"; PStr "="; PInt 14417].
Definition salesperson_213 : pyval := PTuple [PStr "salesperson_id"; PStr "="; PInt 213].

(** ** The meaning of a condition on a row

    The conditions are run by PostgreSQL (the engine is created on
    [postgresql+psycopg2], line 1108). A row gives each column an int, a
    str or [NULL]; a comparison with [NULL] has no truth value, and neither
    has a comparison between an int and a str, which the server refuses. *)

Inductive cell : Type := CNull | CInt (n : Z) | CStr (s : string).

Definition row : Type := string -> cell.

(** [subject LIKE pattern]: [%] stands for any run of characters, [_] for
    any one character, a backslash takes the next character literally; the
    other characters stand for themselves, so the match is case-sensitive. *)
Fixpoint like (pattern subject : list ascii) {struct pattern} : bool :=
  match pattern with
  | [] => match subject with [] => true | _ :: _ => false end
  | c :: p =>
      if Ascii.eqb c "%" then
        (fix any (s : list ascii) : bool :=
           like p s || match s with [] => false | _ :: s' => any s' end) subject
      else if Ascii.eqb c "_" then
        match subject with [] => false | _ :: s' => like p s' end
      else if Ascii.eqb c "\" then
        match p with
        | [] => false
        | c' :: p' =>
            match subject with
            | [] => false
            | d :: s' => Ascii.eqb c' d && like p' s'
            end
        end
      else
        match subject with
        | [] => false
        | d :: s' => Ascii.eqb c d && like p s'
        end
  end.

(** Kleene's connectives: [None] is SQL's unknown. *)
Definition and3 (a b : option bool) : option bool :=
  match a, b with
  | Some false, _ | _, Some false => Some false
  | Some true, Some true => Some true
  | _, _ => None
  end.

Definition or3 (a b : option bool) : option bool :=
  match a, b with
  | Some true, _ | _, Some true => Some true
  | Some false, Some false => Some false
  | _, _ => None
  end.

Definition not3 (a : option bool) : option bool := option_map negb a.

Definition compare3 (op : cmp) (c : cell) (value : pyval) : option bool :=
  match c, value with
  | CInt n, PInt m =>
      Some (match op with
            | OpEq => n =? m | OpNe => negb (n =? m)
            | OpGt => m <? n | OpGe => m <=? n
            | OpLt => n <? m | OpLe => n <=? m
            end)%Z
  | CStr s, PStr t =>
      Some (match op with
            | OpEq => String.eqb s t | OpNe => negb (String.eqb s t)
            | OpGt => String.ltb t s | OpGe => String.leb t s
            | OpLt => String.ltb s t | OpLe => String.leb s t
            end)
  | _, _ => None
  end.

Definition in3 (c : cell) (value : pyval) : option bool :=
  match value with
  | PList l | PTuple l =>
      fold_right (fun v acc => or3 (compare3 OpEq c v) acc) (Some false) l
  | _ => None
  end.

(** [column.contains(value)] is [column LIKE '%' || value || '%']. *)
Definition contains3 (c : cell) (value : pyval) : option bool :=
  match c, value with
  | CStr s, PStr v =>
      Some (like (list_ascii_of_string ("%" ++ v ++ "%")%string)
                 (list_ascii_of_string s))
  | _, _ => None
  end.

Section Meaning.

(** The server's regular-expression matcher: [regex ci pattern subject],
    case-insensitive when [ci]. [regexp_match] without flags is the
    operator [~], with the flag ['i'] the operator [~*]; other flags are
    left without a meaning. *)
Variable regex : bool -> string -> string -> bool.

Definition regexp3 (c : cell) (value : pyval) (flags : option string)
  : option bool :=
  match c, value, flags with
  | CStr s, PStr v, None => Some (regex false v s)
  | CStr s, PStr v, Some f =>
      if String.eqb f "i" then Some (regex true v s) else None
  | _, _, _ => None
  end.

Fixpoint eval (r : row) (q : condition) : option bool :=
  match q with
  | PyNone => None
  | PyBool b => Some b
  | Compare op c value => compare3 op (r (col_name c)) value
  | Between c lo hi =>
      and3 (compare3 OpGe (r (col_name c)) lo)
           (compare3 OpLe (r (col_name c)) hi)
  | In_ c value => in3 (r (col_name c)) value
  | NotIn c value => not3 (in3 (r (col_name c)) value)
  | Contains c value => contains3 (r (col_name c)) value
  | RegexpMatch c value flags => regexp3 (r (col_name c)) value flags
  | Not_ q' => not3 (eval r q')
  | And_ q1 q2 => and3 (eval r q1) (eval r q2)
  | Or_ q1 q2 => or3 (eval r q1) (eval r q2)
  end.

(** A [WHERE] clause keeps the rows on which the condition is true. *)
Definition accepts (r : row) (q : condition) : bool :=
  match eval r q with
  | Some true => true
  | _ => false
  end.

End Meaning.

(** ** Containment as the specification words it *)

Definition lower (c : ascii) : ascii :=
  let n := nat_of_ascii c in
  if (65 <=? n) && (n <=? 90) then ascii_of_nat (n + 32) else c.

Fixpoint starts_with (v s : list ascii) : bool :=
  match v, s with
  | [] , _ => true
  | _ :: _, [] => false
  | a :: v', b :: s' => Ascii.eqb a b && starts_with v' s'
  end.

Fixpoint substring_of (v s : list ascii) : bool :=
  starts_with v s || match s with [] => false | _ :: s' => substring_of v s' end.

(** Case-insensitive substring containment of [value] in [s]. *)
Definition icontains (value s : string) : bool :=
  substring_of (map lower (list_ascii_of_string value))
               (map lower (list_ascii_of_string s)).

(** ** Conditions and search criteria as trees *)

(** A condition that has Python's [None] nowhere in it. *)
Fixpoint none_free (q : condition) : bool :=
  match q with
  | PyNone => false
  | Not_ q' => none_free q'
  | And_ q1 q2 | Or_ q1 q2 => none_free q1 && none_free q2
  | _ => true
  end.

(** A search criteria read as a tree: a triplet, or a marker and its two
    operands. [flatten] writes the tree in prefix notation. *)
Inductive criteria_tree : Type :=
| Leaf (t : pyval)
| Node (m : pyval) (l r : criteria_tree).

Fixpoint flatten (e : criteria_tree) : list pyval :=
  match e with
  | Leaf t => [t]
  | Node m l r => m :: flatten l ++ flatten r
  end.

Definition is_leaf (e : criteria_tree) : bool :=
  match e with Leaf _ => true | Node _ _ _ => false end.

(** The trees [_build_where] reads back from their prefix notation: the
    leaves are triplets, the markers are not, and of the two operands of a
    marker one at least is a single triplet. *)
Fixpoint supported (e : criteria_tree) : bool :=
  match e with
  | Leaf t => _is_triplet t
  | Node m l r =>
      negb (_is_triplet m) && supported l && supported r
      && (is_leaf l || is_leaf r)
  end.

(** The condition of a tree: the operands from left to right, then the
    marker. *)
Fixpoint compile_tree (table : Mapper) (e : criteria_tree) : M condition :=
  match e with
  | Leaf t => _create_individual_query table t
  | Node m l r =>
      q1 <- compile_tree table l ;;
      q2 <- compile_tree table r ;;
      _merge_queries m q1 q2
  end.

(** ** The rest of [class DMLManager]: tables, fields and sorting

    The orderings and statements built here are not conditions and are
    not entered in the log. *)

(** A table class: what [getattr] resolves on it, the names in its
    [__annotations__], the keys of its relationships, and the names in the
    [__annotations__] of its base class. *)
Record table_class : Type := {
  class_mapper : Mapper;
  class_annotations : list string;
  class_relationships : list string;
  base_annotations : list string
}.

(** The attributes of an instance the methods below read. *)
Record instance : Type := {
  _tables : list (string * table_class);
  _default_output : option string;
  _id_name : string
}.

(** [d[k] = v]: the value of a key already there is replaced, in place. *)
Fixpoint dict_setitem {V} (d : list (string * V)) (k : string) (v : V)
  : list (string * V) :=
  match d with
  | [] => [(k, v)]
  | (k', v') :: d' =>
      if String.eqb k k' then (k, v) :: d' else (k', v') :: dict_setitem d' k v
  end.

(** [_create_table_references(self, attribute_intercept)], lines 139-151,
    on the list of the mapped classes of the registry. *)
Definition _create_table_references (mappers : list table_class)
  : list (string * table_class) :=
  fold_left (fun table_instances class_ =>
               dict_setitem table_instances (tablename (class_mapper class_)) class_)
            mappers [].

(** [_get_table_instance(self, table_name)], lines 1079-1091. *)
Definition _get_table_instance (self : instance) (table_name : string)
  : M table_class :=
  dict_getitem (_tables self) (PStr table_name).

(** [getattr(table_instance, name)] on a str, for the columns of the
    table: where it is used below its result is only passed on. *)
Definition getattr (table_instance : Mapper) (name : string) : M column :=
  if existsb (String.eqb name) (attrs table_instance)
  then ret (column_of table_instance name)
  else raise AttributeError.

(** [_id_field(self, table_instance)], lines 1168-1173. *)
Definition _id_field (self : instance) (table_instance : Mapper) : M column :=
  getattr table_instance (_id_name self).

(** [[f(x) for x in l]]: the first exception ends the comprehension. *)
Fixpoint for_each {A B} (f : A -> M B) (l : list A) : M (list B) :=
  match l with
  | [] => ret []
  | a :: l' => b <- f a ;; bs <- for_each f l' ;; ret (b :: bs)
  end.

(** [l.remove(x)]: the first occurrence of [x] goes; [None] stands for the
    [ValueError] of a list that has none. *)
Fixpoint list_remove (x : string) (l : list string) : option (list string) :=
  match l with
  | [] => None
  | y :: l' =>
      if String.eqb y x then Some l'
      else option_map (cons y) (list_remove x l')
  end.

(** The fields of a table when none is asked for, lines 1051-1057. *)
Definition all_fields (table_instance : table_class) : list string :=
  let instance_relationships := class_relationships table_instance in
  let instance_fields :=
    filter (fun column => negb (existsb (String.eqb column) instance_relationships))
           (class_annotations table_instance) in
  let base_fields := base_annotations table_instance in
  instance_fields ++ base_fields.

(** The names [_get_table_fields] looks up, lines 1046-1073. *)
Definition table_field_names (table_instance : table_class)
    (fields : list string) (include_id : bool) : list string :=
  let id_field := ["id"] in
  let fields := if List.length fields =? 0 then all_fields table_instance
                else fields in
  if include_id then
    let fields := match list_remove "id" fields with
                  | Some fields' => fields'
                  | None => fields
                  end in
    id_field ++ fields
  else fields.

(** [_get_table_fields(self, table_instance, fields, include_id)], lines
    1029-1077. *)
Definition _get_table_fields (table_instance : table_class)
    (fields : list string) (include_id : bool) : M (list column) :=
  for_each (getattr (class_mapper table_instance))
           (table_field_names table_instance fields include_id).


Inductive ordering : Type := Asc (c : column) | Desc (c : column).

(** A [select] statement: its columns, the conditions of its [WHERE], the
    clauses of its [ORDER BY], its [OFFSET] and its [LIMIT]. *)
Record Select : Type := {
  select_columns : list column;
  where_criteria : list condition;
  order_by_clauses : list ordering;
  offset_clause : option Z;
  limit_clause : option Z
}.

Definition select (columns : list column) : Select :=
  {| select_columns := columns; where_criteria := [];
     order_by_clauses := []; offset_clause := None; limit_clause := None |}.

(** [stmt.where(q)] adds a condition, [stmt.order_by(...)] adds clauses
    after those already there. *)
Definition where_ (stmt : Select) (q : condition) : Select :=
  {| select_columns := select_columns stmt;
     where_criteria := where_criteria stmt ++ [q];
     order_by_clauses := order_by_clauses stmt;
     offset_clause := offset_clause stmt; limit_clause := limit_clause stmt |}.

Definition order_by (stmt : Select) (clauses : list ordering) : Select :=
  {| select_columns := select_columns stmt;
     where_criteria := where_criteria stmt;
     order_by_clauses := order_by_clauses stmt ++ clauses;
     offset_clause := offset_clause stmt; limit_clause := limit_clause stmt |}.

Definition offset_ (stmt : Select) (n : Z) : Select :=
  {| select_columns := select_columns stmt;
     where_criteria := where_criteria stmt;
     order_by_clauses := order_by_clauses stmt;
     offset_clause := Some n; limit_clause := limit_clause stmt |}.

Definition limit_ (stmt : Select) (n : Z) : Select :=
  {| select_columns := select_columns stmt;
     where_criteria := where_criteria stmt;
     order_by_clauses := order_by_clauses stmt;
     offset_clause := offset_clause stmt; limit_clause := Some n |}.

(** The arguments of [_build_sort], as annotated in [read] and
    [search_read]: [sortby: str | list[str] = None] and
    [ascending: bool | list[bool] = True]. *)
Inductive sortby_arg : Type :=
| SortNone
| SortStr (field : string)
| SortList (fields : list string).

Inductive ascending_arg : Type :=
| AscBool (b : bool)
| AscList (bs : list bool).

(** [_sorting_direction = {True: asc, False: desc}], lines 110-113. *)
Definition _sorting_direction (key : bool) : column -> ordering :=
  if key then Asc else Desc.

(** [_sorting_direction[ascending]]: a list cannot be hashed. *)
Definition sorting_direction_getitem (ascending : ascending_arg)
  : M (column -> ordering) :=
  match ascending with
  | AscBool b => ret (_sorting_direction b)
  | AscList _ => raise TypeError
  end.

(** [zip(sortby, ascending)]: a bool cannot be iterated; the longer list
    is cut to the length of the shorter. *)
Definition zip_ascending (sortby : list string) (ascending : ascending_arg)
  : M (list (string * bool)) :=
  match ascending with
  | AscList bs => ret (combine sortby bs)
  | AscBool _ => raise TypeError
  end.

(** [_build_sort(self, stmt, table_instance, sortby, ascending)], lines
    968-1027. *)
Definition _build_sort (self : instance) (stmt : Select)
    (table_instance : Mapper) (sortby : sortby_arg) (ascending : ascending_arg)
  : M Select :=
  match sortby with
  | SortNone =>
      c <- _id_field self table_instance ;;
      ret (order_by stmt [Asc c])
  | SortStr field =>
      direction <- sorting_direction_getitem ascending ;;
      c <- getattr table_instance field ;;
      ret (order_by stmt [direction c])
  | SortList fields =>
      pairs <- zip_ascending fields ascending ;;
      clauses <- for_each (fun '(sortby_i, ascending_i) =>
                             c <- getattr table_instance sortby_i ;;
                             ret (_sorting_direction ascending_i c))
                          pairs ;;
      ret (order_by stmt clauses)
  end.

(** The statement [search(self, table_name, search_criteria, offset,
    limit)] hands to the connection, lines 333-355. *)
Definition search_statement (self : instance) (table_name : string)
    (search_criteria : CriteriaStructure) (offset limit : option Z)
  : M Select :=
  table_instance <- _get_table_instance self table_name ;;
  c <- _id_field self (class_mapper table_instance) ;;
  let stmt := select [c] in
  stmt <- (if 0 <? List.length search_criteria then
             where_query <- _build_where (class_mapper table_instance)
                                         search_criteria ;;
             ret (where_ stmt where_query)
           else ret stmt) ;;
  c <- _id_field self (class_mapper table_instance) ;;
  let stmt := order_by stmt [Asc c] in
  let stmt := match offset with Some n => offset_ stmt n | None => stmt end in
  let stmt := match limit with Some n => limit_ stmt n | None => stmt end in
  ret stmt.

(** The items [value[0]] and [value[1]] are taken from. *)
Definition items (value : pyval) : list pyval :=
  match value with
  | PList l | PTuple l => l
  | PStr s => chars s
  | PInt _ => []
  end.

(** A table class registered under the name [k]. *)
Definition named (k : string) (class_ : table_class) : bool :=
  String.eqb k (tablename (class_mapper class_)).

(** A name [getattr] resolves on the table. *)
Definition known (table : Mapper) (name : string) : bool :=
  existsb (String.eqb name) (attrs table).

(** The clause of [ORDER BY] for a column and its direction. *)
Definition sort_clause (table : Mapper) (pair : string * bool) : ordering :=
  _sorting_direction (snd pair) (column_of table (fst pair)).

(** * Properties *)

(** ** The monad *)

Lemma bind_ext {A B} (m : M A) (k1 k2 : A -> M B) (s : log) :
  (forall a s', m s = (Return a, s') -> k1 a s' = k2 a s') ->
  bind m k1 s = bind m k2 s.
Proof.
  intros H. unfold bind.
  destruct (m s) as [[a | e |] s'] eqn:E; auto.
Qed.

Lemma bind_cong {A B} (m1 m2 : M A) (k : A -> M B) (s : log) :
  m1 s = m2 s -> bind m1 k s = bind m2 k s.
Proof. intros H. unfold bind. now rewrite H. Qed.

Lemma bind_Return {A B} (m : M A) (k : A -> M B) (s s' : log) (a : A) :
  m s = (Return a, s') -> bind m k s = k a s'.
Proof. intros H. unfold bind. now rewrite H. Qed.

Lemma bind_Raise {A B} (m : M A) (k : A -> M B) (s s' : log) (e : exn) :
  m s = (Raise e, s') -> bind m k s = (Raise e, s').
Proof. intros H. unfold bind. now rewrite H. Qed.

Lemma bind_terminates {A B} (m : M A) (k : A -> M B) (s : log) :
  fst (m s) <> OutOfFuel ->
  (forall a s', m s = (Return a, s') -> fst (k a s') <> OutOfFuel) ->
  fst (bind m k s) <> OutOfFuel.
Proof.
  intros Hm Hk. unfold bind.
  destruct (m s) as [[a | e |] s'] eqn:E; cbn in *; auto; discriminate.
Qed.

(** ** Python primitives never run out of fuel *)

Lemma getitem_terminates l i s : fst (getitem l i s) <> OutOfFuel.
Proof. unfold getitem. destruct (nth_error l i); discriminate. Qed.

Lemma subscript_terminates value i s : fst (subscript value i s) <> OutOfFuel.
Proof. destruct value; cbn; try apply getitem_terminates; discriminate. Qed.

Lemma unpack3_list_terminates l s : fst (unpack3_list l s) <> OutOfFuel.
Proof. destruct l as [|a [|b [|c [|d l]]]]; discriminate. Qed.

Lemma unpack3_terminates value s : fst (unpack3 value s) <> OutOfFuel.
Proof. destruct value; cbn; try apply unpack3_list_terminates; discriminate. Qed.

Lemma dict_getitem_terminates {V} (d : list (string * V)) key s :
  fst (dict_getitem d key s) <> OutOfFuel.
Proof.
  unfold dict_getitem. destruct (hashable key); [|discriminate].
  destruct key; try discriminate. destruct (assoc s0 d); discriminate.
Qed.

Lemma dict_getitem_Return {V} (d : list (string * V)) key s v s' :
  dict_getitem d key s = (Return v, s') ->
  exists k, key = PStr k /\ assoc k d = Some v /\ s' = s.
Proof.
  unfold dict_getitem. destruct (hashable key); [|discriminate].
  destruct key; try discriminate.
  destruct (assoc s0 d) eqn:E; try discriminate.
  intros H. inversion H; subst. eauto.
Qed.

Lemma assoc_Forall {V} (P : V -> Prop) (d : list (string * V)) k v :
  Forall (fun kv => P (snd kv)) d -> assoc k d = Some v -> P v.
Proof.
  induction 1 as [|[k' v'] d HP _ IH]; cbn; [discriminate|].
  destruct (String.eqb k k'); auto. intros H. now inversion H; subst.
Qed.

Lemma _get_table_field_terminates table field s :
  fst (_get_table_field table field s) <> OutOfFuel.
Proof.
  destruct field; cbn; try discriminate.
  destruct (existsb _ _); [discriminate|].
  destruct (String.eqb _ _); discriminate.
Qed.

Lemma str_compare_terminates op str value s :
  fst (str_compare op str value s) <> OutOfFuel.
Proof. destruct value, op; discriminate. Qed.

Lemma _comparison_operation_terminates :
  Forall (fun kv => forall table field value s,
            fst (snd kv table field value s) <> OutOfFuel)
         _comparison_operation.
Proof.
  unfold _comparison_operation.
  repeat constructor; cbn [snd]; intros table field value s;
    (apply bind_terminates; [apply _get_table_field_terminates|]);
    intros [c | str] s' _; try discriminate;
    try apply str_compare_terminates.
  apply bind_terminates; [apply subscript_terminates|]. intros lo s1 _.
  apply bind_terminates; [apply subscript_terminates|]. discriminate.
Qed.

Lemma _create_individual_query_terminates table fragment s :
  fst (_create_individual_query table fragment s) <> OutOfFuel.
Proof.
  unfold _create_individual_query.
  apply bind_terminates; [apply unpack3_terminates|].
  intros [[field op] value] s1 _.
  apply bind_terminates; [apply dict_getitem_terminates|].
  intros callback s2 H.
  apply dict_getitem_Return in H as (k & _ & H & _).
  exact (assoc_Forall
           (fun cb : OperatorCallback =>
              forall table field value s, fst (cb table field value s) <> OutOfFuel)
           _ _ _ _comparison_operation_terminates H table field value s2).
Qed.

Lemma _merge_queries_terminates op q1 q2 s :
  fst (_merge_queries op q1 q2 s) <> OutOfFuel.
Proof.
  unfold _merge_queries.
  apply bind_terminates; [apply dict_getitem_terminates|].
  intros callback s1 H.
  apply dict_getitem_Return in H as (k & _ & H & _).
  unfold _logic_operation in H. cbn in H.
  destruct (String.eqb k "|"); [inversion H; discriminate|].
  destruct (String.eqb k "&"); [inversion H; discriminate|discriminate].
Qed.

(** ** The body of [_build_where], by the shape of the search criteria *)

Lemma last_cons {A} (l : list A) (a d : A) : last (a :: l) d = last l a.
Proof.
  revert a d. induction l as [|b l IH]; intros a d; [reflexivity|].
  change (last (a :: b :: l) d) with (last (b :: l) d).
  now rewrite !IH.
Qed.

Lemma firstn_removelast_cons {A} (x : A) (l : list A) :
  firstn (List.length l) (x :: l) = removelast (x :: l).
Proof. now rewrite removelast_firstn_len. Qed.

Section Body.

Variable self : Mapper -> CriteriaStructure -> M condition.
Variable table : Mapper.

Lemma _build_where_body_nil s :
  _build_where_body self table [] s = (Return PyNone, s).
Proof. reflexivity. Qed.

Lemma _build_where_body_one t s :
  _build_where_body self table [t] s = _create_individual_query table t s.
Proof. reflexivity. Qed.

Lemma _build_where_body_two x1 x2 s :
  _build_where_body self table [x1; x2] s = (Raise IndexError, s).
Proof. reflexivity. Qed.

Lemma _build_where_body_cons3 x1 x2 x3 rest s :
  _build_where_body self table (x1 :: x2 :: x3 :: rest) s =
  (if negb (_is_triplet x1) && _is_triplet x2 && _is_triplet x3 then
     q1 <- _create_individual_query table x2 ;;
     q2 <- _create_individual_query table x3 ;;
     _merge_queries x1 q1 q2
   else if _is_triplet x2 then
     q1 <- _create_individual_query table x2 ;;
     q2 <- self table (x3 :: rest) ;;
     _merge_queries x1 q1 q2
   else
     q1 <- self table (x2 :: removelast (x3 :: rest)) ;;
     q2 <- _create_individual_query table (last rest x3) ;;
     _merge_queries x1 q1 q2) s.
Proof.
  unfold _build_where_body.
  cbn [List.length Nat.eqb seq for_returning].
  unfold _build_where_iteration.
  cbn [getitem nth_error Nat.add bind ret].
  unfold slice. cbn [List.length Nat.add Nat.sub firstn skipn].
  rewrite firstn_all, firstn_removelast_cons.
  destruct (_is_triplet x1), (_is_triplet x2), (_is_triplet x3);
    cbn [negb andb unpack3_list bind ret getitem_last];
    rewrite ?last_cons; reflexivity.
Qed.

End Body.

Lemma recursive_span_cons3 x1 x2 x3 rest :
  recursive_span (x1 :: x2 :: x3 :: rest) =
  if negb (_is_triplet x1) && _is_triplet x2 && _is_triplet x3 then None
  else if _is_triplet x2 then Some (x3 :: rest)
  else Some (x2 :: removelast (x3 :: rest)).
Proof.
  unfold recursive_span, slice.
  cbn [List.length Nat.add Nat.sub firstn skipn].
  now rewrite firstn_all, firstn_removelast_cons.
Qed.

Lemma length_removelast_cons {A} (x : A) (l : list A) :
  List.length (removelast (x :: l)) = List.length l.
Proof.
  rewrite removelast_firstn_len, length_firstn. cbn. lia.
Qed.

(** The span of a recursive call is shorter by two, and not empty. *)
Lemma recursive_span_length cs sub :
  recursive_span cs = Some sub ->
  List.length sub + 2 = List.length cs /\ 1 <= List.length sub.
Proof.
  destruct cs as [|x1 [|x2 [|x3 rest]]]; try discriminate.
  rewrite recursive_span_cons3.
  destruct (negb (_is_triplet x1) && _is_triplet x2 && _is_triplet x3);
    [discriminate|].
  destruct (_is_triplet x2); intros H.
  - assert (E : x3 :: rest = sub) by congruence.
    rewrite <- E. cbn [List.length]. lia.
  - assert (E : x2 :: removelast (x3 :: rest) = sub) by congruence.
    rewrite <- E. cbn [List.length].
    rewrite length_removelast_cons. lia.
Qed.

(** The body looks at [self] on the recursive span only. *)
Lemma _build_where_body_ext self1 self2 table cs s :
  (forall sub s', recursive_span cs = Some sub ->
                  self1 table sub s' = self2 table sub s') ->
  _build_where_body self1 table cs s = _build_where_body self2 table cs s.
Proof.
  destruct cs as [|x1 [|x2 [|x3 rest]]]; try reflexivity.
  rewrite recursive_span_cons3, !_build_where_body_cons3.
  destruct (negb (_is_triplet x1) && _is_triplet x2 && _is_triplet x3);
    [reflexivity|].
  destruct (_is_triplet x2); intros H.
  - apply bind_ext. intros q1 s1 _. apply bind_cong. now apply H.
  - apply bind_cong. now apply H.
Qed.

(** The body runs out of fuel only if its recursive call does. *)
Lemma _build_where_body_terminates self table cs s :
  (forall sub s', recursive_span cs = Some sub ->
                  fst (self table sub s') <> OutOfFuel) ->
  fst (_build_where_body self table cs s) <> OutOfFuel.
Proof.
  destruct cs as [|x1 [|x2 [|x3 rest]]]; try discriminate.
  - intros _. rewrite _build_where_body_one.
    apply _create_individual_query_terminates.
  - rewrite recursive_span_cons3, _build_where_body_cons3.
    destruct (negb (_is_triplet x1) && _is_triplet x2 && _is_triplet x3).
    + intros _.
      apply bind_terminates; [apply _create_individual_query_terminates|].
      intros q1 s1 _.
      apply bind_terminates; [apply _create_individual_query_terminates|].
      intros q2 s2 _. apply _merge_queries_terminates.
    + destruct (_is_triplet x2); intros H.
      * apply bind_terminates; [apply _create_individual_query_terminates|].
        intros q1 s1 _.
        apply bind_terminates; [now apply H|].
        intros q2 s2 _. apply _merge_queries_terminates.
      * apply bind_terminates; [now apply H|].
        intros q1 s1 _.
        apply bind_terminates; [apply _create_individual_query_terminates|].
        intros q2 s2 _. apply _merge_queries_terminates.
Qed.

(** ** Fuel *)

(** Fuel [n >= 1] is enough for a search criteria of at most [2 * n]
    elements: the outcome is then the one of [_build_where]. *)
Lemma _build_where_fuel_stable table n m cs s :
  0 < n -> List.length cs <= 2 * n ->
  0 < m -> List.length cs <= 2 * m ->
  _build_where_fuel n table cs s = _build_where_fuel m table cs s.
Proof.
  revert m cs s. induction n as [|n IH]; intros m cs s Hn Hcs Hm Hcs';
    [lia|].
  destruct m as [|m]; [lia|]. cbn [_build_where_fuel].
  apply _build_where_body_ext. intros sub s' Hsub.
  apply recursive_span_length in Hsub as [Hlen Hne].
  apply IH; lia.
Qed.

Lemma _build_where_fuel_enough table n cs s :
  0 < n -> List.length cs <= 2 * n ->
  _build_where_fuel n table cs s = _build_where table cs s.
Proof.
  intros Hn Hcs. unfold _build_where.
  apply _build_where_fuel_stable; lia.
Qed.

Lemma _build_where_fuel_terminates table n cs s :
  0 < n -> List.length cs <= 2 * n ->
  fst (_build_where_fuel n table cs s) <> OutOfFuel.
Proof.
  revert cs s. induction n as [|n IH]; intros cs s Hn Hcs; [lia|].
  cbn [_build_where_fuel].
  apply _build_where_body_terminates. intros sub s' Hsub.
  apply recursive_span_length in Hsub as [Hlen Hne].
  apply IH; lia.
Qed.

Lemma _build_where_terminates table cs s :
  fst (_build_where table cs s) <> OutOfFuel.
Proof.
  unfold _build_where. apply _build_where_fuel_terminates; lia.
Qed.

(** [_build_where] satisfies the equation of the source function. *)
Lemma _build_where_unfold table cs s :
  _build_where table cs s = _build_where_body _build_where table cs s.
Proof.
  unfold _build_where at 1. cbn [_build_where_fuel].
  apply _build_where_body_ext. intros sub s' Hsub.
  apply recursive_span_length in Hsub as [Hlen Hne].
  apply _build_where_fuel_enough; lia.
Qed.

(** ** Field lookup *)

Lemma existsb_eqb_In f l : In f l -> existsb (String.eqb f) l = true.
Proof.
  intros H. apply existsb_exists. exists f. split; [assumption|].
  apply String.eqb_refl.
Qed.


Lemma _get_table_field_known table f s :
  In f (attrs table) ->
  _get_table_field table (PStr f) s =
  (Return (InstrumentedAttribute
             {| col_table := tablename table; col_name := f |}), s).
Proof. intros H. cbn. now rewrite (existsb_eqb_In _ _ H). Qed.


Lemma is_LogicOperator_inv m :
  is_LogicOperator m = true -> m = PStr "&" \/ m = PStr "|".
Proof.
  destruct m as [n | s | l | l]; cbn; try discriminate.
  destruct (String.eqb_spec s "&") as [-> | _]; [now left|].
  destruct (String.eqb_spec s "|") as [-> | _]; [now right|discriminate].
Qed.

(** ** Atomic conditions on a known field *)

Lemma create_individual_query_eq table f value s :
  In f (attrs table) ->
  _create_individual_query table (PTuple [PStr f; PStr "="; value]) s =
  (Return (Compare OpEq (column_of table f) value),
   s ++ [Compare OpEq (column_of table f) value]).
Proof.
  intros H. unfold _create_individual_query. cbn -[_get_table_field].
  now rewrite (bind_Return _ _ _ _ _ (_get_table_field_known table f s H)).
Qed.

Lemma create_individual_query_ilike table f value s :
  In f (attrs table) ->
  _create_individual_query table (PTuple [PStr f; PStr "ilike"; value]) s =
  (Return (Contains (column_of table f) value),
   s ++ [Contains (column_of table f) value]).
Proof.
  intros H. unfold _create_individual_query. cbn -[_get_table_field].
  now rewrite (bind_Return _ _ _ _ _ (_get_table_field_known table f s H)).
Qed.

Lemma create_individual_query_ilike_inv table f value s q s' :
  _create_individual_query table (PTuple [PStr f; PStr "ilike"; value]) s =
  (Return q, s') ->
  q = Contains (column_of table f) value.
Proof.
  unfold _create_individual_query. cbn.
  destruct (existsb (String.eqb f) (attrs table)); cbn.
  - intros H. now inversion H.
  - destruct (String.eqb f "__tablename__"); discriminate.
Qed.

(** The flag ['i'] makes [regexp_match] the case-insensitive match. *)
Lemma create_individual_query_regexp_i table f v s :
  In f (attrs table) ->
  _create_individual_query table (PTuple [PStr f; PStr "~*"; PStr v]) s =
  (Return (RegexpMatch (column_of table f) (PStr v) (Some "i")),
   s ++ [RegexpMatch (column_of table f) (PStr v) (Some "i")]) /\
  forall regex (r : row) str,
    r f = CStr str ->
    accepts regex r (RegexpMatch (column_of table f) (PStr v) (Some "i")) =
    regex true v str.
Proof.
  intros H. split.
  - unfold _create_individual_query. cbn -[_get_table_field].
    now rewrite (bind_Return _ _ _ _ _ (_get_table_field_known table f s H)).
  - intros regex r str Hr. unfold accepts. cbn. rewrite Hr. cbn.
    now destruct (regex true v str).
Qed.

(** ** The meaning of the connectives *)

Lemma accepts_true regex r q : accepts regex r q = true <-> eval regex r q = Some true.
Proof.
  unfold accepts. destruct (eval regex r q) as [[|]|]; split; congruence.
Qed.

Lemma and3_true a b : and3 a b = Some true <-> a = Some true /\ b = Some true.
Proof.
  destruct a as [[|]|], b as [[|]|]; cbn; split;
    try (intros [? ?]); congruence || (split; congruence).
Qed.

Lemma or3_true a b : or3 a b = Some true <-> a = Some true \/ b = Some true.
Proof.
  destruct a as [[|]|], b as [[|]|]; cbn; split;
    try (intros [? | ?]); congruence || auto.
Qed.

Lemma compare3_eq_int c n : compare3 OpEq c (PInt n) = Some true <-> c = CInt n.
Proof.
  destruct c as [| m | t]; cbn; try (split; discriminate).
  destruct (Z.eqb_spec m n); split; congruence.
Qed.

(** ** Markers and depth *)

Lemma is_triplet_of_term v :
  is_LogicOperator v || is_TripletStructure v = true ->
  _is_triplet v = negb (is_LogicOperator v).
Proof.
  destruct v as [n | s | l | l]; cbn; try discriminate.
  - rewrite orb_false_r. now intros ->.
  - reflexivity.
Qed.

Lemma forallb_removelast {A} (p : A -> bool) (l : list A) :
  forallb p l = true -> forallb p (removelast l) = true.
Proof.
  destruct l as [|x l]; [reflexivity|]. intros H.
  rewrite (app_removelast_last x (l := x :: l)) in H by discriminate.
  rewrite forallb_app in H. now apply andb_true_iff in H as [H _].
Qed.

Lemma count_markers_removelast cs :
  count_markers (removelast cs) <= count_markers cs.
Proof.
  destruct cs as [|x l]; [reflexivity|]. unfold count_markers.
  rewrite (app_removelast_last x (l := x :: l)) at 2 by discriminate.
  rewrite filter_app, length_app. lia.
Qed.

Lemma count_markers_cons x cs :
  count_markers (x :: cs) =
  (if is_LogicOperator x then 1 else 0) + count_markers cs.
Proof. unfold count_markers. cbn. now destruct (is_LogicOperator x). Qed.

(** On a search criteria led by a marker, the recursive span is led by a
    marker too, and has at least one marker less. *)
Lemma recursive_span_markers cs sub :
  is_CriteriaStructure cs = true ->
  marker_led cs = true ->
  recursive_span cs = Some sub ->
  is_CriteriaStructure sub = true /\ marker_led sub = true /\
  S (count_markers sub) <= count_markers cs.
Proof.
  destruct cs as [|x1 [|x2 [|x3 rest]]]; try discriminate.
  rewrite recursive_span_cons3. unfold is_CriteriaStructure.
  cbn [forallb marker_led]. intros Hcs H1.
  apply andb_true_iff in Hcs as [T1 Hcs].
  apply andb_true_iff in Hcs as [T2 Hcs].
  pose proof Hcs as Hcs3.
  apply andb_true_iff in Hcs as [T3 Hcs].
  rewrite (is_triplet_of_term _ T1), (is_triplet_of_term _ T2),
    (is_triplet_of_term _ T3), H1.
  rewrite !count_markers_cons, H1. cbn [negb andb].
  destruct (is_LogicOperator x2) eqn:H2; cbn [negb andb].
  - intros H. assert (E : x2 :: removelast (x3 :: rest) = sub) by congruence.
    rewrite <- E. repeat split.
    + cbn [forallb]. apply andb_true_iff. split.
      * now rewrite H2.
      * apply forallb_removelast. exact Hcs3.
    + exact H2.
    + rewrite count_markers_cons, H2.
      pose proof (count_markers_removelast (x3 :: rest)) as Hle.
      rewrite (count_markers_cons x3) in Hle. lia.
  - destruct (is_LogicOperator x3) eqn:H3; cbn [negb]; [|discriminate].
    intros H. assert (E : x3 :: rest = sub) by congruence.
    rewrite <- E. repeat split.
    + cbn [forallb]. rewrite H3. exact Hcs3.
    + exact H3.
    + rewrite count_markers_cons, H3. lia.
Qed.

(** Led by a marker, a search criteria needs no more fuel than it has
    markers. *)
Lemma _build_where_fuel_markers table n cs s :
  is_CriteriaStructure cs = true ->
  marker_led cs = true ->
  count_markers cs <= n ->
  _build_where_fuel n table cs s = _build_where table cs s.
Proof.
  revert cs s. induction n as [|n IH]; intros cs s Hcs Hled Hn.
  - destruct cs as [|m rest]; [discriminate|].
    rewrite count_markers_cons in Hn. cbn in Hled. rewrite Hled in Hn. lia.
  - rewrite _build_where_unfold. cbn [_build_where_fuel].
    apply _build_where_body_ext. intros sub s' Hsub.
    destruct (recursive_span_markers cs sub Hcs Hled Hsub) as (Hcs' & Hled' & Hle).
    apply IH; auto. lia.
Qed.

(** * The claims *)

(** C1. On [['&', '|', ('partner_id','=',14418), ('partner_id','=',14417),
    ('salesperson_id','=',213)]] and a table that has both fields,
    [_build_where] applies the first marker ['&'] to the outcome of its
    recursive call on the span [['|', t1, t2]] and to the last triplet, and
    returns [(partner_id = 14418 OR partner_id = 14417) AND
    salesperson_id = 213]: a row is accepted exactly when its [partner_id]
    is 14418 or 14417 and its [salesperson_id] is 213. *)
Theorem build_where_nested_example :
  forall (table : Mapper) (s : log),
    In "partner_id" (attrs table) ->
    In "salesperson_id" (attrs table) ->
    let cs := [PStr "&"; PStr "|"; partner_14418; partner_14417; salesperson_213] in
    let q :=
      And_ (Or_ (Compare OpEq (column_of table "partner_id") (PInt 14418))
                (Compare OpEq (column_of table "partner_id") (PInt 14417)))
           (Compare OpEq (column_of table "salesperson_id") (PInt 213)) in
    _build_where table cs s =
      (q1 <- _build_where table [PStr "|"; partner_14418; partner_14417] ;;
       q2 <- _create_individual_query table salesperson_213 ;;
       _merge_queries (PStr "&") q1 q2) s /\
    fst (_build_where table cs s) = Return q /\
    forall regex (r : row),
      accepts regex r q = true <->
      (r "partner_id" = CInt 14418 \/ r "partner_id" = CInt 14417) /\
      r "salesperson_id" = CInt 213.
Proof.
  intros table s Hp Hs cs q.
  assert (E : _build_where table cs s =
              (q1 <- _build_where table [PStr "|"; partner_14418; partner_14417] ;;
               q2 <- _create_individual_query table salesperson_213 ;;
               _merge_queries (PStr "&") q1 q2) s).
  { unfold cs. now rewrite _build_where_unfold, _build_where_body_cons3. }
  split; [exact E|]. split.
  - rewrite E.
    assert (E1 : _build_where table [PStr "|"; partner_14418; partner_14417] s =
                 (q1 <- _create_individual_query table partner_14418 ;;
                  q2 <- _create_individual_query table partner_14417 ;;
                  _merge_queries (PStr "|") q1 q2) s) by reflexivity.
    unfold partner_14418, partner_14417, salesperson_213 in *.
    erewrite bind_Return.
    2:{ rewrite E1.
        erewrite bind_Return by (now apply create_individual_query_eq).
        erewrite bind_Return by (now apply create_individual_query_eq).
        reflexivity. }
    erewrite bind_Return by (now apply create_individual_query_eq).
    reflexivity.
  - intros regex r. unfold q.
    rewrite accepts_true. cbn [eval col_name column_of].
    now rewrite and3_true, or3_true, !compare3_eq_int.
Qed.

Lemma build_where_nested_example_witness :
  fst (_build_where
         {| tablename := "sales"; attrs := ["partner_id"; "salesperson_id"] |}
         [PStr "&"; PStr "|"; partner_14418; partner_14417; salesperson_213] []) =
  Return
    (And_ (Or_ (Compare OpEq {| col_table := "sales"; col_name := "partner_id" |}
                  (PInt 14418))
               (Compare OpEq {| col_table := "sales"; col_name := "partner_id" |}
                  (PInt 14417)))
          (Compare OpEq {| col_table := "sales"; col_name := "salesperson_id" |}
             (PInt 213))).
Proof.
  refine (proj1 (proj2 (build_where_nested_example
            {| tablename := "sales"; attrs := ["partner_id"; "salesperson_id"] |}
            [] _ _))); cbn; auto.
Defined.

(** C2, on the code: the condition built for ['ilike'] is
    [column.contains(value)], a [LIKE], which tells upper case from lower
    case. For [('name', 'ilike', 'as')] and a row whose name is ["AS"], the
    condition rejects the row, although ["AS"] contains ["as"] when case is
    ignored. *)
Theorem ilike_is_case_sensitive :
  fst (_create_individual_query {| tablename := "users"; attrs := ["name"] |}
         (PTuple [PStr "name"; PStr "ilike"; PStr "as"]) []) =
    Return (Contains {| col_table := "users"; col_name := "name" |} (PStr "as")) /\
  (forall regex,
      accepts regex (fun _ => CStr "AS")
        (Contains {| col_table := "users"; col_name := "name" |} (PStr "as")) =
      false) /\
  icontains "as" "AS" = true.
Proof. repeat split; reflexivity. Qed.

(** C3 as stated fails: on a marker, two triplets and a third, trailing
    triplet, [_build_where] raises nothing and returns the condition made
    of the first two triplets. *)
Lemma trailing_terms_counterexample :
  fst (_build_where {| tablename := "t"; attrs := ["a"] |}
         [PStr "&"; PTuple [PStr "a"; PStr "="; PInt 1];
          PTuple [PStr "a"; PStr "="; PInt 2];
          PTuple [PStr "a"; PStr "="; PInt 3]] []) =
  Return (And_ (Compare OpEq {| col_table := "t"; col_name := "a" |} (PInt 1))
               (Compare OpEq {| col_table := "t"; col_name := "a" |} (PInt 2))).
Proof. reflexivity. Qed.

(** C3, amended. On a search criteria that begins with a marker followed
    by two triplets, [_build_where] does what it does on these three
    elements alone, whatever follows them: it joins the two atomic
    conditions under the marker, and the trailing elements are neither read
    nor a cause of failure. *)
Theorem build_where_ignores_trailing_terms :
  forall (table : Mapper) (m t1 t2 : pyval) (rest : list pyval) (s : log),
    is_LogicOperator m = true ->
    _is_triplet t1 = true ->
    _is_triplet t2 = true ->
    _build_where table (m :: t1 :: t2 :: rest) s =
      _build_where table [m; t1; t2] s /\
    _build_where table [m; t1; t2] s =
      (q1 <- _create_individual_query table t1 ;;
       q2 <- _create_individual_query table t2 ;;
       _merge_queries m q1 q2) s.
Proof.
  intros table m t1 t2 rest s Hm H1 H2.
  assert (H0 : _is_triplet m = false)
    by (destruct (is_LogicOperator_inv m Hm) as [-> | ->]; reflexivity).
  rewrite !_build_where_unfold, !_build_where_body_cons3, H0, H1, H2.
  split; reflexivity.
Qed.

Lemma build_where_ignores_trailing_terms_witness :
  _build_where {| tablename := "t"; attrs := ["a"] |}
    [PStr "&"; PTuple [PStr "a"; PStr "="; PInt 1];
     PTuple [PStr "a"; PStr "="; PInt 2]; PStr "|"; PInt 7] [] =
  _build_where {| tablename := "t"; attrs := ["a"] |}
    [PStr "&"; PTuple [PStr "a"; PStr "="; PInt 1];
     PTuple [PStr "a"; PStr "="; PInt 2]] [].
Proof.
  refine (proj1 (build_where_ignores_trailing_terms
                   {| tablename := "t"; attrs := ["a"] |} (PStr "&")
                   (PTuple [PStr "a"; PStr "="; PInt 1])
                   (PTuple [PStr "a"; PStr "="; PInt 2])
                   [PStr "|"; PInt 7] [] _ _ _)); reflexivity.
Defined.




(** C5 as stated fails: on a row whose field is [NULL], the condition
    built for ['ilike'] and the condition built for ['not ilike'] both
    reject the row. *)
Lemma not_ilike_null_counterexample :
  fst (_create_individual_query {| tablename := "users"; attrs := ["name"] |}
         (PTuple [PStr "name"; PStr "ilike"; PStr "x"]) []) =
    Return (Contains {| col_table := "users"; col_name := "name" |} (PStr "x")) /\
  fst (_create_individual_query {| tablename := "users"; attrs := ["name"] |}
         (PTuple [PStr "name"; PStr "not ilike"; PStr "x"]) []) =
    Return (Not_ (Contains {| col_table := "users"; col_name := "name" |}
                    (PStr "x"))) /\
  accepts (fun _ _ _ => false) (fun _ => CNull)
    (Contains {| col_table := "users"; col_name := "name" |} (PStr "x")) = false /\
  accepts (fun _ _ _ => false) (fun _ => CNull)
    (Not_ (Contains {| col_table := "users"; col_name := "name" |} (PStr "x"))) =
  false.
Proof. repeat split; reflexivity. Qed.

(** C5, amended. The condition built for ['not ilike'] is [not_] applied
    to the condition built for ['ilike'] on the same field and value, and
    fails when and as that one fails. On every row its truth value is the
    negation of the one of the ['ilike'] condition, so that the two never
    accept the same row; on every row that holds a str in the field it
    accepts the row exactly when the ['ilike'] condition rejects it; on a
    row that holds [NULL] in the field both reject. *)
Theorem not_ilike_negates_ilike :
  forall (table : Mapper) (f v : string) (s : log),
    _create_individual_query table (PTuple [PStr f; PStr "not ilike"; PStr v]) s =
      (q <- _create_individual_query table (PTuple [PStr f; PStr "ilike"; PStr v]) ;;
       sqlalchemy.not_ q) s /\
    forall q s',
      _create_individual_query table (PTuple [PStr f; PStr "ilike"; PStr v]) s =
        (Return q, s') ->
      fst (_create_individual_query table
             (PTuple [PStr f; PStr "not ilike"; PStr v]) s) = Return (Not_ q) /\
      (forall regex (r : row),
          eval regex r (Not_ q) = not3 (eval regex r q)) /\
      (forall regex (r : row),
          accepts regex r (Not_ q) = true -> accepts regex r q = false) /\
      (forall regex (r : row) (str : string),
          r f = CStr str ->
          accepts regex r (Not_ q) = negb (accepts regex r q)) /\
      (forall regex (r : row),
          r f = CNull ->
          accepts regex r (Not_ q) = false /\ accepts regex r q = false).
Proof.
  intros table f v s.
  assert (E : _create_individual_query table
                (PTuple [PStr f; PStr "not ilike"; PStr v]) s =
              (q <- _create_individual_query table
                      (PTuple [PStr f; PStr "ilike"; PStr v]) ;;
               sqlalchemy.not_ q) s).
  { unfold _create_individual_query, bind. cbn.
    destruct (existsb (String.eqb f) (attrs table)); [reflexivity|].
    destruct (String.eqb f "__tablename__"); reflexivity. }
  split; [exact E|].
  intros q s' H. split; [|split; [|split; [|split]]].
  - rewrite E. now rewrite (bind_Return _ _ _ _ _ H).
  - reflexivity.
  - intros regex r. unfold accepts. cbn [eval]. unfold not3, option_map.
    now destruct (eval regex r q) as [[|]|].
  - intros regex r str Hr.
    apply create_individual_query_ilike_inv in H as ->.
    unfold accepts. cbn [eval column_of col_name]. rewrite Hr.
    unfold contains3, not3, option_map.
    now destruct (like _ _).
  - intros regex r Hr.
    apply create_individual_query_ilike_inv in H as ->.
    unfold accepts. cbn [eval column_of col_name]. rewrite Hr.
    split; reflexivity.
Qed.

Lemma not_ilike_negates_ilike_witness :
  accepts (fun _ _ _ => false) (fun _ => CStr "Texas")
    (Not_ (Contains {| col_table := "users"; col_name := "name" |} (PStr "x"))) =
  negb (accepts (fun _ _ _ => false) (fun _ => CStr "Texas")
          (Contains {| col_table := "users"; col_name := "name" |} (PStr "x"))).
Proof.
  refine (proj1 (proj2 (proj2 (proj2 (proj2 (not_ilike_negates_ilike
                   {| tablename := "users"; attrs := ["name"] |} "name" "x" [])
                   _ _ _)))) _ _ "Texas" _); reflexivity.
Defined.

(** C6. [and_] joins two non-empty search criteria under a leading ['&'],
    returns the non-empty one when the other is empty and the empty list
    when both are; [or_] does the same with ['|']. Hence [and_ cs [] = cs],
    and compiling the one is compiling the other. *)
Theorem and_or_splice :
  (forall a cs_1 b cs_2,
      and_ (a :: cs_1) (b :: cs_2) = PStr "&" :: (a :: cs_1) ++ (b :: cs_2)) /\
  (forall a cs_1 b cs_2,
      or_ (a :: cs_1) (b :: cs_2) = PStr "|" :: (a :: cs_1) ++ (b :: cs_2)) /\
  (forall cs, and_ cs [] = cs) /\ (forall cs, and_ [] cs = cs) /\
  (forall cs, or_ cs [] = cs) /\ (forall cs, or_ [] cs = cs) /\
  and_ [] [] = [] /\ or_ [] [] = [] /\
  (forall table cs s,
      _build_where table (and_ cs []) s = _build_where table cs s) /\
  (forall table cs s,
      _build_where table (or_ cs []) s = _build_where table cs s).
Proof.
  assert (Ha : forall cs, and_ cs [] = cs) by (now intros [|a cs]).
  assert (Ho : forall cs, or_ cs [] = cs) by (now intros [|a cs]).
  repeat split; try reflexivity; try assumption.
  - intros table cs s. now rewrite Ha.
  - intros table cs s. now rewrite Ho.
Qed.

(** C7. On a search criteria of exactly one element [[t]], [_build_where]
    returns what [_create_individual_query] returns on [t]: the same
    outcome (expression or exception) and the same expressions built. *)
Theorem build_where_single_triplet :
  forall (table : Mapper) (t : pyval) (s : log),
    _build_where table [t] s = _create_individual_query table t s.
Proof. reflexivity. Qed.

(** C8 as stated fails: three triplets and no marker, and yet
    [_build_where] calls itself. A run limited to its outermost activation
    is cut short; with a second activation, for the recursive call on the
    last triplet, it ends (on the [KeyError] of a triplet used as the
    marker). *)
Lemma depth_exceeds_markers_counterexample :
  is_CriteriaStructure
    [PTuple [PStr "a"; PStr "="; PInt 1]; PTuple [PStr "a"; PStr "="; PInt 2];
     PTuple [PStr "a"; PStr "="; PInt 3]] = true /\
  count_markers
    [PTuple [PStr "a"; PStr "="; PInt 1]; PTuple [PStr "a"; PStr "="; PInt 2];
     PTuple [PStr "a"; PStr "="; PInt 3]] = 0 /\
  recursive_span
    [PTuple [PStr "a"; PStr "="; PInt 1]; PTuple [PStr "a"; PStr "="; PInt 2];
     PTuple [PStr "a"; PStr "="; PInt 3]] =
    Some [PTuple [PStr "a"; PStr "="; PInt 3]] /\
  fst (_build_where_fuel 1 {| tablename := "t"; attrs := ["a"] |}
         [PTuple [PStr "a"; PStr "="; PInt 1]; PTuple [PStr "a"; PStr "="; PInt 2];
          PTuple [PStr "a"; PStr "="; PInt 3]] []) = OutOfFuel /\
  fst (_build_where_fuel 2 {| tablename := "t"; attrs := ["a"] |}
         [PTuple [PStr "a"; PStr "="; PInt 1]; PTuple [PStr "a"; PStr "="; PInt 2];
          PTuple [PStr "a"; PStr "="; PInt 3]] []) = Raise KeyError.
Proof. repeat split; reflexivity. Qed.

(** C8, amended. [_build_where] ends on every search criteria: its body
    uses the recursive call on strictly shorter lists only (the span of a
    recursive call is two elements shorter, and not empty), a bound of
    [n >= 1] activations is enough for up to [2 * n] elements, and the
    function never runs out of the fuel it is given. When the search
    criteria is led by a marker, the number of its markers is enough as a
    bound on the activations, the outermost call included: the recursion
    depth does not exceed the number of markers. *)
Theorem build_where_terminates_depth :
  (forall self1 self2 table cs s,
      (forall sub s', List.length sub < List.length cs ->
                      self1 table sub s' = self2 table sub s') ->
      _build_where_body self1 table cs s = _build_where_body self2 table cs s) /\
  (forall cs sub,
      recursive_span cs = Some sub ->
      List.length sub + 2 = List.length cs /\ 1 <= List.length sub) /\
  (forall table cs s, fst (_build_where table cs s) <> OutOfFuel) /\
  (forall table cs s,
      _build_where table cs s = _build_where_body _build_where table cs s) /\
  (forall table n cs s,
      0 < n -> List.length cs <= 2 * n ->
      _build_where_fuel n table cs s = _build_where table cs s) /\
  (forall table cs s,
      is_CriteriaStructure cs = true ->
      marker_led cs = true ->
      _build_where_fuel (count_markers cs) table cs s = _build_where table cs s).
Proof.
  repeat split.
  - intros self1 self2 table cs s H. apply _build_where_body_ext.
    intros sub s' Hsub. apply H.
    apply recursive_span_length in Hsub. lia.
  - now apply recursive_span_length in H.
  - now apply recursive_span_length in H.
  - apply _build_where_terminates.
  - intros table cs s. apply _build_where_unfold.
  - intros table n cs s. apply _build_where_fuel_enough.
  - intros table cs s Hcs Hled. now apply _build_where_fuel_markers.
Qed.

Lemma build_where_terminates_depth_witness :
  _build_where_fuel 2 {| tablename := "sales"; attrs := ["partner_id"] |}
    [PStr "&"; PStr "|"; partner_14418; partner_14417; salesperson_213] [] =
  _build_where {| tablename := "sales"; attrs := ["partner_id"] |}
    [PStr "&"; PStr "|"; partner_14418; partner_14417; salesperson_213] [].
Proof.
  refine (proj2 (proj2 (proj2 (proj2 (proj2 build_where_terminates_depth))))
            {| tablename := "sales"; attrs := ["partner_id"] |}
            [PStr "&"; PStr "|"; partner_14418; partner_14417; salesperson_213]
            [] _ _); reflexivity.
Defined.




(** C10. [_is_triplet] is true of every tuple, whatever its length; it
    looks at the length of a list only, and is false of an int and of a
    str. So a search criteria [[m, (a, b), t]] with a tuple of two elements
    goes through the branch of a marker followed by two triplets, and the
    short tuple reaches [_create_individual_query], where unpacking it
    raises [ValueError]. *)
Theorem is_triplet_accepts_any_tuple :
  (forall l, _is_triplet (PTuple l) = true) /\
  (forall l, _is_triplet (PList l) = (List.length l =? 3)) /\
  (forall n, _is_triplet (PInt n) = false) /\
  (forall s, _is_triplet (PStr s) = false) /\
  (forall table m a b l s,
      _build_where table [PStr m; PTuple [a; b]; PTuple l] s =
      (q1 <- _create_individual_query table (PTuple [a; b]) ;;
       q2 <- _create_individual_query table (PTuple l) ;;
       _merge_queries (PStr m) q1 q2) s) /\
  (forall table a b s,
      _create_individual_query table (PTuple [a; b]) s = (Raise ValueError, s)).
Proof.
  repeat split; reflexivity.
Qed.

(** * Further properties *)

Lemma bind_Return_inv {A B} (m : M A) (k : A -> M B) s b s' :
  bind m k s = (Return b, s') ->
  exists a s1, m s = (Return a, s1) /\ k a s1 = (Return b, s').
Proof.
  unfold bind. destruct (m s) as [[a | e |] s1]; try discriminate. eauto.
Qed.

Lemma _build_where_three table x1 t1 t2 s :
  _is_triplet t1 = true ->
  _build_where table [x1; t1; t2] s =
  (q1 <- _create_individual_query table t1 ;;
   q2 <- _create_individual_query table t2 ;;
   _merge_queries x1 q1 q2) s.
Proof.
  intros H1. rewrite _build_where_unfold, _build_where_body_cons3, H1.
  destruct (negb (_is_triplet x1) && true && _is_triplet t2); reflexivity.
Qed.

Lemma _build_where_right table x1 t x rest s :
  _is_triplet t = true -> _is_triplet x = false ->
  _build_where table (x1 :: t :: x :: rest) s =
  (q1 <- _create_individual_query table t ;;
   q2 <- _build_where table (x :: rest) ;;
   _merge_queries x1 q1 q2) s.
Proof.
  intros Ht Hx. rewrite _build_where_unfold, _build_where_body_cons3, Ht, Hx.
  now rewrite andb_false_r.
Qed.

Lemma _build_where_left table x1 x cs t s :
  _is_triplet x = false ->
  _build_where table (x1 :: (x :: cs) ++ [t]) s =
  (q1 <- _build_where table (x :: cs) ;;
   q2 <- _create_individual_query table t ;;
   _merge_queries x1 q1 q2) s.
Proof.
  intros Hx. rewrite _build_where_unfold.
  destruct (cs ++ [t]) as [|x3 rest] eqn:E; [now destruct cs|].
  cbn [app]. rewrite E, _build_where_body_cons3, Hx.
  rewrite andb_false_r. cbn [andb].
  rewrite <- E, removelast_last.
  replace (last rest x3) with t; [reflexivity|].
  rewrite <- (last_cons rest x3 t), <- E. now rewrite last_last.
Qed.

Lemma tree_head_not_triplet m l r :
  supported (Node m l r) = true ->
  exists rest, flatten (Node m l r) = m :: rest /\ _is_triplet m = false.
Proof.
  cbn. intros H. repeat (apply andb_true_iff in H as [H ?]).
  apply negb_true_iff in H. eauto.
Qed.

(** X1. [_build_where] reads prefix notation back on every tree whose
    markers have a single triplet for one of their two operands at least:
    on the flattened tree it runs the operands from left to right and joins
    them under the marker, nested markers included. *)
Theorem build_where_reads_prefix_notation :
  forall table e s,
    supported e = true ->
    _build_where table (flatten e) s = compile_tree table e s.
Proof.
  intros table e. induction e as [t | m l IHl r IHr]; intros s H.
  - reflexivity.
  - pose proof H as H0. cbn in H.
    apply andb_true_iff in H as [H Hleaf].
    apply andb_true_iff in H as [H Hr].
    apply andb_true_iff in H as [Hm Hl].
    destruct l as [t1 | m1 l1 r1].
    + destruct r as [t2 | m2 l2 r2].
      * cbn in Hl. cbn [flatten app compile_tree].
        now rewrite _build_where_three.
      * destruct (tree_head_not_triplet _ _ _ Hr) as (rest & E & Hm2).
        cbn [flatten app compile_tree] in *. cbn in Hl.
        injection E as E. rewrite E in *.
        rewrite _build_where_right by assumption.
        apply bind_ext. intros q1 s1 _. apply bind_cong.
        now apply IHr.
    + destruct r as [t2 | m2 l2 r2]; [|discriminate].
      destruct (tree_head_not_triplet _ _ _ Hl) as (rest & E & Hm1).
      cbn [compile_tree]. change (flatten (Node m (Node m1 l1 r1) (Leaf t2)))
        with (m :: flatten (Node m1 l1 r1) ++ [t2]).
      rewrite E. rewrite _build_where_left by assumption.
      rewrite <- E. apply bind_cong. now apply IHl.
Qed.

Lemma build_where_reads_prefix_notation_witness :
  _build_where {| tablename := "t"; attrs := ["a"] |}
    [PStr "&"; PStr "|"; PTuple [PStr "a"; PStr "="; PInt 1];
     PTuple [PStr "a"; PStr "="; PInt 2]; PTuple [PStr "a"; PStr "="; PInt 3]] [] =
  compile_tree {| tablename := "t"; attrs := ["a"] |}
    (Node (PStr "&")
       (Node (PStr "|") (Leaf (PTuple [PStr "a"; PStr "="; PInt 1]))
                        (Leaf (PTuple [PStr "a"; PStr "="; PInt 2])))
       (Leaf (PTuple [PStr "a"; PStr "="; PInt 3]))) [].
Proof.
  apply (build_where_reads_prefix_notation
           {| tablename := "t"; attrs := ["a"] |}
           (Node (PStr "&")
              (Node (PStr "|") (Leaf (PTuple [PStr "a"; PStr "="; PInt 1]))
                               (Leaf (PTuple [PStr "a"; PStr "="; PInt 2])))
              (Leaf (PTuple [PStr "a"; PStr "="; PInt 3]))) []).
  reflexivity.
Defined.

Lemma _comparison_operation_none_free :
  Forall (fun kv => forall table field value s q s',
            snd kv table field value s = (Return q, s') -> none_free q = true)
         _comparison_operation.
Proof.
  unfold _comparison_operation.
  repeat constructor; cbn [snd]; intros table field value s q s' H;
    apply bind_Return_inv in H as ([c | str] & s1 & _ & H);
    try discriminate;
    try (inversion H; reflexivity).
  - destruct value; inversion H; reflexivity.
  - destruct value; inversion H; reflexivity.
  - destruct value; try discriminate; inversion H; reflexivity.
  - destruct value; try discriminate; inversion H; reflexivity.
  - destruct value; try discriminate; inversion H; reflexivity.
  - destruct value; try discriminate; inversion H; reflexivity.
  - cbn [column_method] in H.
    apply bind_Return_inv in H as (lo & s2 & _ & H).
    apply bind_Return_inv in H as (hi & s3 & _ & H).
    inversion H; reflexivity.
Qed.

Lemma _create_individual_query_none_free table fragment s q s' :
  _create_individual_query table fragment s = (Return q, s') ->
  none_free q = true.
Proof.
  unfold _create_individual_query. intros H.
  apply bind_Return_inv in H as ([[field op] value] & s1 & _ & H).
  apply bind_Return_inv in H as (callback & s2 & Hcb & H).
  apply dict_getitem_Return in Hcb as (k & _ & Hk & _).
  exact (assoc_Forall
           (fun cb : OperatorCallback =>
              forall table field value s q s',
                cb table field value s = (Return q, s') -> none_free q = true)
           _ _ _ _comparison_operation_none_free Hk _ _ _ _ _ _ H).
Qed.

Lemma _merge_queries_Return op q1 q2 s q s' :
  _merge_queries op q1 q2 s = (Return q, s') ->
  (op = PStr "&" /\ q = And_ q1 q2 \/ op = PStr "|" /\ q = Or_ q1 q2) /\
  s' = s ++ [q].
Proof.
  unfold _merge_queries. intros H.
  apply bind_Return_inv in H as (callback & s1 & Hcb & H).
  apply dict_getitem_Return in Hcb as (k & -> & Hk & ->).
  unfold _logic_operation in Hk. cbn in Hk.
  destruct (String.eqb_spec k "|") as [E | _].
  - subst k. injection Hk as <-. inversion H; subst. auto.
  - destruct (String.eqb_spec k "&") as [E | _]; [|discriminate].
    subst k. injection Hk as <-. inversion H; subst. auto.
Qed.

Lemma _merge_queries_none_free op q1 q2 s q s' :
  _merge_queries op q1 q2 s = (Return q, s') ->
  none_free q1 = true -> none_free q2 = true -> none_free q = true.
Proof.
  intros H H1 H2.
  apply _merge_queries_Return in H as [[[_ ->] | [_ ->]] _]; cbn;
    now rewrite H1, H2.
Qed.

Lemma _build_where_body_none_free self table cs s q s' :
  (forall sub s1 q1 s1', recursive_span cs = Some sub ->
      self table sub s1 = (Return q1, s1') -> none_free q1 = true) ->
  cs <> [] ->
  _build_where_body self table cs s = (Return q, s') ->
  none_free q = true.
Proof.
  intros Hself Hne.
  destruct cs as [|x1 [|x2 [|x3 rest]]]; try congruence.
  - rewrite _build_where_body_one. apply _create_individual_query_none_free.
  - discriminate.
  - rewrite recursive_span_cons3 in Hself.
    rewrite _build_where_body_cons3.
    destruct (negb (_is_triplet x1) && _is_triplet x2 && _is_triplet x3).
    + intros H.
      apply bind_Return_inv in H as (q1 & s1 & H1 & H).
      apply bind_Return_inv in H as (q2 & s2 & H2 & H).
      eapply _merge_queries_none_free; eauto using _create_individual_query_none_free.
    + destruct (_is_triplet x2); intros H.
      * apply bind_Return_inv in H as (q1 & s1 & H1 & H).
        apply bind_Return_inv in H as (q2 & s2 & H2 & H).
        eapply _merge_queries_none_free; eauto using _create_individual_query_none_free.
      * apply bind_Return_inv in H as (q1 & s1 & H1 & H).
        apply bind_Return_inv in H as (q2 & s2 & H2 & H).
        eapply _merge_queries_none_free; eauto using _create_individual_query_none_free.
Qed.

Lemma _build_where_fuel_none_free table n cs s q s' :
  cs <> [] ->
  _build_where_fuel n table cs s = (Return q, s') ->
  none_free q = true.
Proof.
  revert cs s q s'. induction n as [|n IH]; intros cs s q s' Hne; [discriminate|].
  cbn [_build_where_fuel]. apply _build_where_body_none_free; [|assumption].
  intros sub s1 q1 s1' Hsub. apply IH.
  apply recursive_span_length in Hsub as [_ Hlen].
  destruct sub; [cbn in Hlen; lia|discriminate].
Qed.

(** X2. On a search criteria that is not empty, what [_build_where]
    returns has [None] nowhere in it: neither the condition itself nor an
    operand of an [and_], an [or_] or a [not_] at any depth. *)
Theorem build_where_never_none :
  forall table cs s q s',
    cs <> [] ->
    _build_where table cs s = (Return q, s') ->
    none_free q = true.
Proof. intros table cs s q s'. apply _build_where_fuel_none_free. Qed.

Lemma build_where_never_none_witness :
  none_free
    (And_ (Compare OpEq {| col_table := "t"; col_name := "a" |} (PInt 1))
          (Compare OpEq {| col_table := "t"; col_name := "a" |} (PInt 2))) = true.
Proof.
  apply (build_where_never_none {| tablename := "t"; attrs := ["a"] |}
           [PStr "&"; PTuple [PStr "a"; PStr "="; PInt 1];
            PTuple [PStr "a"; PStr "="; PInt 2]] [] _
           [Compare OpEq {| col_table := "t"; col_name := "a" |} (PInt 1);
            Compare OpEq {| col_table := "t"; col_name := "a" |} (PInt 2);
            And_ (Compare OpEq {| col_table := "t"; col_name := "a" |} (PInt 1))
                 (Compare OpEq {| col_table := "t"; col_name := "a" |} (PInt 2))]).
  - discriminate.
  - reflexivity.
Defined.

(** X3. On two elements or more, [_build_where] returns a condition only
    if the first element is ['&'] or ['|'] and the elements are three at
    least: led by a triplet, or by anything else, the search criteria ends
    in an exception. *)
Theorem build_where_returns_only_under_marker :
  forall table cs s q s',
    2 <= List.length cs ->
    _build_where table cs s = (Return q, s') ->
    exists m rest, cs = m :: rest /\ is_LogicOperator m = true /\
                   3 <= List.length cs.
Proof.
  intros table cs s q s' Hlen. rewrite _build_where_unfold.
  destruct cs as [|x1 [|x2 [|x3 rest]]]; cbn in Hlen; try lia.
  - discriminate.
  - rewrite _build_where_body_cons3. intros H.
    assert (Hm : exists q1 q2 s2, _merge_queries x1 q1 q2 s2 = (Return q, s')).
    { destruct (negb (_is_triplet x1) && _is_triplet x2 && _is_triplet x3);
        [|destruct (_is_triplet x2)];
        apply bind_Return_inv in H as (q1 & s1 & _ & H);
        apply bind_Return_inv in H as (q2 & s2 & _ & H); eauto. }
    destruct Hm as (q1 & q2 & s2 & Hm).
    apply _merge_queries_Return in Hm as [[[-> _] | [-> _]] _];
      eexists; exists (x2 :: x3 :: rest); repeat split; cbn; lia.
Qed.

Lemma build_where_returns_only_under_marker_witness :
  exists m rest,
    [PStr "|"; PTuple [PStr "a"; PStr "="; PInt 1];
     PTuple [PStr "a"; PStr "="; PInt 2]] = m :: rest /\
    is_LogicOperator m = true /\
    3 <= List.length [PStr "|"; PTuple [PStr "a"; PStr "="; PInt 1];
                      PTuple [PStr "a"; PStr "="; PInt 2]].
Proof.
  eapply (build_where_returns_only_under_marker
            {| tablename := "t"; attrs := ["a"] |} _ []).
  - cbn. lia.
  - vm_compute. reflexivity.
Defined.

Lemma build_where_marker_led_then_last table m x cs1 cs2 d s :
  _is_triplet x = false -> cs2 <> [] ->
  _build_where table (m :: (x :: cs1) ++ cs2) s =
  (q1 <- _build_where table ((x :: cs1) ++ removelast cs2) ;;
   q2 <- _create_individual_query table (last cs2 d) ;;
   _merge_queries m q1 q2) s.
Proof.
  intros Hx Hne.
  rewrite (app_removelast_last d Hne) at 1.
  rewrite app_assoc. change ((x :: cs1) ++ removelast cs2)
    with (x :: (cs1 ++ removelast cs2)).
  now apply _build_where_left.
Qed.

(** X4. Compiling [and_(cs_1, cs_2)] when [cs_1] begins with a marker and
    [cs_2] is not empty: the left operand of the ['&'] is the compilation
    of [cs_1] followed by all of [cs_2] but its last element, the right
    operand is the last element of [cs_2] alone. The same holds of [or_]
    with ['|']. *)
Theorem splice_after_marker_led :
  forall table x cs_1 cs_2 d s,
    _is_triplet x = false -> cs_2 <> [] ->
    _build_where table (and_ (x :: cs_1) cs_2) s =
      (q1 <- _build_where table ((x :: cs_1) ++ removelast cs_2) ;;
       q2 <- _create_individual_query table (last cs_2 d) ;;
       _merge_queries (PStr "&") q1 q2) s /\
    _build_where table (or_ (x :: cs_1) cs_2) s =
      (q1 <- _build_where table ((x :: cs_1) ++ removelast cs_2) ;;
       q2 <- _create_individual_query table (last cs_2 d) ;;
       _merge_queries (PStr "|") q1 q2) s.
Proof.
  intros table x cs_1 cs_2 d s Hx Hne.
  destruct cs_2 as [|y cs_2]; [congruence|].
  split; apply build_where_marker_led_then_last; assumption.
Qed.

Lemma splice_after_marker_led_witness :
  _build_where {| tablename := "t"; attrs := ["a"] |}
    (and_ [PStr "|"; PTuple [PStr "a"; PStr "="; PInt 1];
           PTuple [PStr "a"; PStr "="; PInt 2]]
          [PTuple [PStr "a"; PStr "="; PInt 3]]) [] =
  (q1 <- _build_where {| tablename := "t"; attrs := ["a"] |}
           [PStr "|"; PTuple [PStr "a"; PStr "="; PInt 1];
            PTuple [PStr "a"; PStr "="; PInt 2]] ;;
   q2 <- _create_individual_query {| tablename := "t"; attrs := ["a"] |}
           (PTuple [PStr "a"; PStr "="; PInt 3]) ;;
   _merge_queries (PStr "&") q1 q2) [].
Proof.
  refine (proj1 (splice_after_marker_led
                   {| tablename := "t"; attrs := ["a"] |} (PStr "|")
                   [PTuple [PStr "a"; PStr "="; PInt 1];
                    PTuple [PStr "a"; PStr "="; PInt 2]]
                   [PTuple [PStr "a"; PStr "="; PInt 3]] (PInt 0) [] _ _)).
  - reflexivity.
  - discriminate.
Defined.

(** X5. Compiling [and_(cs_1, cs_2)] when [cs_1] is a marker and its two
    triplets: the result joins the compilation of [cs_1] with the last
    element of [cs_2] alone; whatever comes before it in [cs_2], markers
    and triplets alike, has no part in the condition. The same holds of
    [or_]. *)
Theorem splice_two_compound_drops_terms :
  forall table m a b cs_2 d s,
    is_LogicOperator m = true -> _is_triplet a = true -> _is_triplet b = true ->
    cs_2 <> [] ->
    _build_where table (and_ [m; a; b] cs_2) s =
      (q1 <- _build_where table [m; a; b] ;;
       q2 <- _create_individual_query table (last cs_2 d) ;;
       _merge_queries (PStr "&") q1 q2) s /\
    _build_where table (or_ [m; a; b] cs_2) s =
      (q1 <- _build_where table [m; a; b] ;;
       q2 <- _create_individual_query table (last cs_2 d) ;;
       _merge_queries (PStr "|") q1 q2) s.
Proof.
  intros table m a b cs_2 d s Hm Ha Hb Hne.
  assert (H0 : _is_triplet m = false)
    by (destruct (is_LogicOperator_inv m Hm) as [-> | ->]; reflexivity).
  assert (E : forall s1, _build_where table ([m; a; b] ++ removelast cs_2) s1 =
                         _build_where table [m; a; b] s1).
  { intros s1. cbn [app].
    now rewrite !_build_where_unfold, !_build_where_body_cons3, H0, Ha, Hb. }
  destruct (splice_after_marker_led table m [a; b] cs_2 d s H0 Hne) as [H1 H2].
  split.
  - rewrite H1. apply bind_cong, E.
  - rewrite H2. apply bind_cong, E.
Qed.

Lemma splice_two_compound_drops_terms_witness :
  fst (_build_where {| tablename := "t"; attrs := ["a"] |}
         (and_ [PStr "|"; PTuple [PStr "a"; PStr "="; PInt 1];
                PTuple [PStr "a"; PStr "="; PInt 2]]
               [PStr "|"; PTuple [PStr "a"; PStr "="; PInt 3];
                PTuple [PStr "a"; PStr "="; PInt 4]]) []) =
  Return
    (And_ (Or_ (Compare OpEq {| col_table := "t"; col_name := "a" |} (PInt 1))
               (Compare OpEq {| col_table := "t"; col_name := "a" |} (PInt 2)))
          (Compare OpEq {| col_table := "t"; col_name := "a" |} (PInt 4))).
Proof.
  pose proof (proj1 (splice_two_compound_drops_terms
                       {| tablename := "t"; attrs := ["a"] |} (PStr "|")
                       (PTuple [PStr "a"; PStr "="; PInt 1])
                       (PTuple [PStr "a"; PStr "="; PInt 2])
                       [PStr "|"; PTuple [PStr "a"; PStr "="; PInt 3];
                        PTuple [PStr "a"; PStr "="; PInt 4]] (PInt 0) []
                       eq_refl eq_refl eq_refl ltac:(discriminate))) as H.
  rewrite H. reflexivity.
Defined.

(** X6. Compiling [and_([t], cs)] for a triplet [t], when [cs] has one
    element or begins with a marker: the condition of [t] joined by ['&']
    with the compilation of [cs], as the examples of [and_] show it. The
    same holds of [or_] with ['|']. *)
Theorem splice_single_triplet_first :
  forall table t cs s,
    _is_triplet t = true ->
    (List.length cs = 1 \/ exists x rest, cs = x :: rest /\ _is_triplet x = false) ->
    _build_where table (and_ [t] cs) s =
      (q1 <- _create_individual_query table t ;;
       q2 <- _build_where table cs ;;
       _merge_queries (PStr "&") q1 q2) s /\
    _build_where table (or_ [t] cs) s =
      (q1 <- _create_individual_query table t ;;
       q2 <- _build_where table cs ;;
       _merge_queries (PStr "|") q1 q2) s.
Proof.
  intros table t cs s Ht [Hlen | (x & rest & -> & Hx)].
  - destruct cs as [|x [|y cs]]; try discriminate.
    split; now apply _build_where_three.
  - split; now apply _build_where_right.
Qed.

Lemma splice_single_triplet_first_witness :
  _build_where {| tablename := "t"; attrs := ["a"] |}
    (and_ [PTuple [PStr "a"; PStr "="; PInt 5]]
          [PStr "|"; PTuple [PStr "a"; PStr "="; PInt 1];
           PTuple [PStr "a"; PStr "="; PInt 2]]) [] =
  (q1 <- _create_individual_query {| tablename := "t"; attrs := ["a"] |}
           (PTuple [PStr "a"; PStr "="; PInt 5]) ;;
   q2 <- _build_where {| tablename := "t"; attrs := ["a"] |}
           [PStr "|"; PTuple [PStr "a"; PStr "="; PInt 1];
            PTuple [PStr "a"; PStr "="; PInt 2]] ;;
   _merge_queries (PStr "&") q1 q2) [].
Proof.
  refine (proj1 (splice_single_triplet_first
                   {| tablename := "t"; attrs := ["a"] |}
                   (PTuple [PStr "a"; PStr "="; PInt 5])
                   [PStr "|"; PTuple [PStr "a"; PStr "="; PInt 1];
                    PTuple [PStr "a"; PStr "="; PInt 2]] [] _ _)).
  - reflexivity.
  - right. eexists. eexists. split; reflexivity.
Defined.

Lemma count_markers_app cs_1 cs_2 :
  count_markers (cs_1 ++ cs_2) = count_markers cs_1 + count_markers cs_2.
Proof. unfold count_markers. now rewrite filter_app, length_app. Qed.

(** X7. [and_] and [or_] keep the type [CriteriaStructure]: of two lists
    of markers and triplets they make a list of markers and triplets, which
    begins with a marker and has one marker more than the two together when
    neither is empty. *)
Theorem splice_keeps_CriteriaStructure :
  forall cs_1 cs_2,
    is_CriteriaStructure cs_1 = true -> is_CriteriaStructure cs_2 = true ->
    is_CriteriaStructure (and_ cs_1 cs_2) = true /\
    is_CriteriaStructure (or_ cs_1 cs_2) = true /\
    (cs_1 <> [] -> cs_2 <> [] ->
     marker_led (and_ cs_1 cs_2) = true /\ marker_led (or_ cs_1 cs_2) = true /\
     count_markers (and_ cs_1 cs_2) = S (count_markers cs_1 + count_markers cs_2) /\
     count_markers (or_ cs_1 cs_2) = S (count_markers cs_1 + count_markers cs_2)).
Proof.
  intros cs_1 cs_2 H1 H2.
  destruct cs_1 as [|a cs_1], cs_2 as [|b cs_2]; repeat split; try congruence;
    try assumption; try reflexivity.
  - unfold and_. cbn [List.length Nat.eqb negb andb].
    unfold is_CriteriaStructure in *. cbn [forallb].
    now rewrite forallb_app, H1, H2.
  - unfold or_. cbn [List.length Nat.eqb negb andb].
    unfold is_CriteriaStructure in *. cbn [forallb].
    now rewrite forallb_app, H1, H2.
  - change (and_ (a :: cs_1) (b :: cs_2))
      with (PStr "&" :: (a :: cs_1) ++ (b :: cs_2)).
    now rewrite count_markers_cons, count_markers_app.
  - change (or_ (a :: cs_1) (b :: cs_2))
      with (PStr "|" :: (a :: cs_1) ++ (b :: cs_2)).
    now rewrite count_markers_cons, count_markers_app.
Qed.

Lemma splice_keeps_CriteriaStructure_witness :
  is_CriteriaStructure
    (and_ [PTuple [PStr "a"; PStr "="; PInt 1]]
          [PStr "|"; PTuple [PStr "a"; PStr "="; PInt 2];
           PTuple [PStr "a"; PStr "="; PInt 3]]) = true.
Proof.
  refine (proj1 (splice_keeps_CriteriaStructure
                   [PTuple [PStr "a"; PStr "="; PInt 1]]
                   [PStr "|"; PTuple [PStr "a"; PStr "="; PInt 2];
                    PTuple [PStr "a"; PStr "="; PInt 3]] _ _)); reflexivity.
Defined.

Lemma assoc_None {V} (d : list (string * V)) k :
  ~ In k (map fst d) -> assoc k d = None.
Proof.
  induction d as [|[k' v] d IH]; cbn; [reflexivity|]. intros H.
  destruct (String.eqb_spec k k') as [-> | _]; [tauto|]. apply IH. tauto.
Qed.

(** X8. The keys of [_comparison_operation] are the thirteen operators of
    [ComparisonOperator], in the same order; a triplet whose operator is a
    str outside them makes [_create_individual_query] raise [KeyError],
    whatever its field and value, before the field is looked up and with
    nothing built. *)
Theorem unsupported_operator_raises_KeyError :
  map fst _comparison_operation = ComparisonOperator /\
  forall table field op value s,
    ~ In op ComparisonOperator ->
    _create_individual_query table (PTuple [field; PStr op; value]) s =
    (Raise KeyError, s).
Proof.
  split; [reflexivity|].
  intros table field op value s Hop.
  unfold _create_individual_query. cbn [unpack3 unpack3_list bind ret].
  unfold dict_getitem. cbn [hashable].
  rewrite assoc_None by exact Hop. reflexivity.
Qed.

Lemma unsupported_operator_raises_KeyError_witness :
  _create_individual_query {| tablename := "t"; attrs := ["a"] |}
    (PTuple [PStr "missing_field"; PStr "like"; PStr "x"]) [] =
  (Raise KeyError, []).
Proof.
  apply (proj2 unsupported_operator_raises_KeyError).
  cbn. intuition discriminate.
Defined.

(** X9. For the operator ['><'] on a field of the table: a list, a tuple
    or a str of two items at least gives [between] on its first two items,
    the others being ignored (a str gives its first two characters); with
    fewer items it raises [IndexError], and an int raises [TypeError]. *)
Theorem between_takes_first_two :
  forall table f value s,
    In f (attrs table) ->
    _create_individual_query table (PTuple [PStr f; PStr "><"; value]) s =
    match value, items value with
    | PInt _, _ => (Raise TypeError, s)
    | _, lo :: hi :: _ =>
        (Return (Between (column_of table f) lo hi),
         s ++ [Between (column_of table f) lo hi])
    | _, _ => (Raise IndexError, s)
    end.
Proof.
  intros table f value s Hf.
  unfold _create_individual_query. cbn -[_get_table_field subscript].
  rewrite (bind_Return _ _ _ _ _ (_get_table_field_known table f s Hf)).
  destruct value as [n | str | l | l]; cbn [items subscript].
  - reflexivity.
  - destruct str as [|c1 [|c2 str]]; reflexivity.
  - destruct l as [|lo [|hi l]]; reflexivity.
  - destruct l as [|lo [|hi l]]; reflexivity.
Qed.

Lemma between_takes_first_two_witness :
  _create_individual_query {| tablename := "t"; attrs := ["a"] |}
    (PTuple [PStr "a"; PStr "><"; PList [PInt 1; PInt 9; PInt 5]]) [] =
  (Return (Between {| col_table := "t"; col_name := "a" |} (PInt 1) (PInt 9)),
   [Between {| col_table := "t"; col_name := "a" |} (PInt 1) (PInt 9)]).
Proof.
  apply (between_takes_first_two {| tablename := "t"; attrs := ["a"] |} "a"
           (PList [PInt 1; PInt 9; PInt 5]) []).
  cbn. auto.
Defined.

Lemma assoc_dict_setitem {V} (d : list (string * V)) k k' v :
  assoc k (dict_setitem d k' v) =
  if String.eqb k k' then Some v else assoc k d.
Proof.
  induction d as [|[k0 v0] d IH]; cbn.
  - reflexivity.
  - destruct (String.eqb_spec k' k0) as [-> | Hne]; cbn.
    + now destruct (String.eqb k k0).
    + rewrite IH. destruct (String.eqb_spec k k0) as [-> | _]; [|reflexivity].
      destruct (String.eqb_spec k0 k'); congruence.
Qed.

Lemma find_app {A} (p : A -> bool) l1 l2 :
  find p (l1 ++ l2) = match find p l1 with Some a => Some a | None => find p l2 end.
Proof.
  induction l1 as [|a l1 IH]; cbn; [reflexivity|]. now destruct (p a).
Qed.

Lemma assoc_table_references k mappers d :
  assoc k (fold_left (fun table_instances class_ =>
                        dict_setitem table_instances
                          (tablename (class_mapper class_)) class_)
                     mappers d) =
  match find (named k) (rev mappers) with
  | Some class_ => Some class_
  | None => assoc k d
  end.
Proof.
  revert d. induction mappers as [|c mappers IH]; intros d; cbn [fold_left rev].
  - reflexivity.
  - rewrite IH, find_app, assoc_dict_setitem.
    destruct (find (named k) (rev mappers)); [reflexivity|].
    cbn. unfold named. now destruct (String.eqb k _).
Qed.

Lemma NoDup_map_eq {A B} (f : A -> B) l a b :
  NoDup (map f l) -> In a l -> In b l -> f a = f b -> a = b.
Proof.
  induction l as [|x l IH]; cbn; [tauto|].
  intros Hnd Ha Hb E. inversion Hnd as [|? ? Hx Hnd']; subst.
  destruct Ha as [-> | Ha], Hb as [-> | Hb]; auto.
  - exfalso. apply Hx. rewrite E. now apply in_map.
  - exfalso. apply Hx. rewrite <- E. now apply in_map.
Qed.

Lemma table_references_lookup_list self mappers table_name s :
  _tables self = _create_table_references mappers ->
  _get_table_instance self table_name s =
    match find (named table_name) (rev mappers) with
    | Some class_ => (Return class_, s)
    | None => (Raise KeyError, s)
    end /\
  (~ In table_name (map (fun c => tablename (class_mapper c)) mappers) ->
   _get_table_instance self table_name s = (Raise KeyError, s)) /\
  (forall class_,
      NoDup (map (fun c => tablename (class_mapper c)) mappers) ->
      In class_ mappers ->
      table_name = tablename (class_mapper class_) ->
      _get_table_instance self table_name s = (Return class_, s)).
Proof.
  intros Ht.
  assert (E : _get_table_instance self table_name s =
              match find (named table_name) (rev mappers) with
              | Some class_ => (Return class_, s)
              | None => (Raise KeyError, s)
              end).
  { unfold _get_table_instance, dict_getitem. cbn [hashable].
    rewrite Ht. unfold _create_table_references.
    rewrite assoc_table_references.
    now destruct (find (named table_name) (rev mappers)). }
  split; [exact E|]. split.
  - intros Hn. rewrite E.
    destruct (find (named table_name) (rev mappers)) as [c|] eqn:F; [|reflexivity].
    apply find_some in F as [Hin Hc]. exfalso. apply Hn.
    apply String.eqb_eq in Hc. rewrite Hc.
    apply (in_map (fun c => tablename (class_mapper c))). now apply in_rev.
  - intros class_ Hnd Hin ->. rewrite E.
    destruct (find _ (rev mappers)) as [c|] eqn:F.
    + apply find_some in F as [Hc Hname]. apply String.eqb_eq in Hname.
      f_equal. f_equal. symmetry.
      apply (NoDup_map_eq (fun c => tablename (class_mapper c)) mappers);
        auto. now apply in_rev.
    + apply in_rev in Hin.
      pose proof (find_none _ _ F class_ Hin) as Hf.
      unfold named in Hf. now rewrite String.eqb_refl in Hf.
Qed.

(** X10. The registry gives its mapped classes in no order that can be
    relied on (line 145 makes a list of a frozenset). When the names of
    the tables are all different, what [_get_table_instance] does on the
    dict made by [_create_table_references] is the same for every order of
    that list: each class is found under its own name. A name no class has
    raises [KeyError]. Should two classes have one name, the class that
    comes later in the list is the one found. *)
Theorem table_references_lookup :
  forall self mappers table_name s,
    _tables self = _create_table_references mappers ->
    (forall self' mappers',
        Permutation mappers mappers' ->
        NoDup (map (fun c => tablename (class_mapper c)) mappers) ->
        _tables self' = _create_table_references mappers' ->
        _get_table_instance self' table_name s =
        _get_table_instance self table_name s) /\
    (forall class_,
        NoDup (map (fun c => tablename (class_mapper c)) mappers) ->
        In class_ mappers ->
        table_name = tablename (class_mapper class_) ->
        _get_table_instance self table_name s = (Return class_, s)) /\
    (~ In table_name (map (fun c => tablename (class_mapper c)) mappers) ->
     _get_table_instance self table_name s = (Raise KeyError, s)) /\
    _get_table_instance self table_name s =
      match find (named table_name) (rev mappers) with
      | Some class_ => (Return class_, s)
      | None => (Raise KeyError, s)
      end.
Proof.
  intros self mappers table_name s Ht.
  destruct (table_references_lookup_list self mappers table_name s Ht)
    as (E & Hmiss & Hfound).
  split; [|auto].
  intros self' mappers' Hperm Hnd Ht'.
  destruct (table_references_lookup_list self' mappers' table_name s Ht')
    as (_ & Hmiss' & Hfound').
  set (name := fun c : table_class => tablename (class_mapper c)) in *.
  destruct (in_dec string_dec table_name (map name mappers)) as [Hin | Hn].
  - apply in_map_iff in Hin as (class_ & Hname & Hin).
    rewrite (Hfound class_ Hnd Hin (eq_sym Hname)).
    apply Hfound'; [|now apply (Permutation_in _ Hperm)|now symmetry].
    apply (Permutation_NoDup (l := map name mappers)); [|assumption].
    now apply Permutation_map.
  - rewrite (Hmiss Hn). apply Hmiss'. intros Hin. apply Hn.
    apply (Permutation_in (l := map name mappers')); [|assumption].
    apply Permutation_map. now apply Permutation_sym.
Qed.

Lemma table_references_lookup_witness :
  _get_table_instance
    {| _tables := _create_table_references
                    [ {| class_mapper := {| tablename := "users"; attrs := ["id"] |};
                         class_annotations := ["id"]; class_relationships := [];
                         base_annotations := [] |};
                      {| class_mapper := {| tablename := "orders"; attrs := ["id"] |};
                         class_annotations := ["id"]; class_relationships := [];
                         base_annotations := [] |} ];
       _default_output := None; _id_name := "id" |} "users" [] =
  _get_table_instance
    {| _tables := _create_table_references
                    [ {| class_mapper := {| tablename := "orders"; attrs := ["id"] |};
                         class_annotations := ["id"]; class_relationships := [];
                         base_annotations := [] |};
                      {| class_mapper := {| tablename := "users"; attrs := ["id"] |};
                         class_annotations := ["id"]; class_relationships := [];
                         base_annotations := [] |} ];
       _default_output := None; _id_name := "id" |} "users" [].
Proof.
  refine (proj1 (table_references_lookup
            {| _tables := _create_table_references
                 [ {| class_mapper := {| tablename := "orders"; attrs := ["id"] |};
                      class_annotations := ["id"]; class_relationships := [];
                      base_annotations := [] |};
                   {| class_mapper := {| tablename := "users"; attrs := ["id"] |};
                      class_annotations := ["id"]; class_relationships := [];
                      base_annotations := [] |} ];
               _default_output := None; _id_name := "id" |}
            [ {| class_mapper := {| tablename := "orders"; attrs := ["id"] |};
                 class_annotations := ["id"]; class_relationships := [];
                 base_annotations := [] |};
              {| class_mapper := {| tablename := "users"; attrs := ["id"] |};
                 class_annotations := ["id"]; class_relationships := [];
                 base_annotations := [] |} ]
            "users" [] eq_refl)
            {| _tables := _create_table_references
                 [ {| class_mapper := {| tablename := "users"; attrs := ["id"] |};
                      class_annotations := ["id"]; class_relationships := [];
                      base_annotations := [] |};
                   {| class_mapper := {| tablename := "orders"; attrs := ["id"] |};
                      class_annotations := ["id"]; class_relationships := [];
                      base_annotations := [] |} ];
               _default_output := None; _id_name := "id" |}
            [ {| class_mapper := {| tablename := "users"; attrs := ["id"] |};
                 class_annotations := ["id"]; class_relationships := [];
                 base_annotations := [] |};
              {| class_mapper := {| tablename := "orders"; attrs := ["id"] |};
                 class_annotations := ["id"]; class_relationships := [];
                 base_annotations := [] |} ]
            _ _ eq_refl).
  - apply perm_swap.
  - repeat constructor; cbn; intuition discriminate.
Defined.

Lemma for_each_getattr table names s :
  for_each (getattr table) names s =
  if forallb (known table) names
  then (Return (map (column_of table) names), s)
  else (Raise AttributeError, s).
Proof.
  induction names as [|f names IH]; cbn [for_each forallb map]; [reflexivity|].
  unfold bind, getattr at 1. fold (known table f).
  destruct (known table f); cbn; [|reflexivity].
  rewrite IH. now destruct (forallb (known table) names).
Qed.

Lemma list_remove_None x l : ~ In x l -> list_remove x l = None.
Proof.
  induction l as [|y l IH]; cbn; [reflexivity|]. intros H.
  destruct (String.eqb_spec y x) as [-> | Hne]; [tauto|].
  rewrite IH by tauto. reflexivity.
Qed.

Lemma list_remove_Some x l l' :
  list_remove x l = Some l' ->
  exists l1 l2, l = l1 ++ x :: l2 /\ l' = l1 ++ l2 /\ ~ In x l1.
Proof.
  revert l'. induction l as [|y l IH]; cbn; intros l'; [discriminate|].
  destruct (String.eqb_spec y x) as [-> | Hne].
  - intros H. injection H as <-. exists [], l. auto.
  - destruct (list_remove x l) as [l0|]; [|discriminate].
    cbn. intros H. injection H as <-.
    destruct (IH l0 eq_refl) as (l1 & l2 & -> & -> & Hn).
    exists (y :: l1), l2. repeat split. cbn. intros [E | Hin]; congruence || tauto.
Qed.

Lemma list_remove_In x l : In x l -> exists l', list_remove x l = Some l'.
Proof.
  induction l as [|y l IH]; cbn; [tauto|]. intros Hin.
  destruct (String.eqb_spec y x) as [-> | Hne]; [eauto|].
  destruct Hin as [-> | Hin]; [congruence|].
  destruct (IH Hin) as (l' & ->). cbn. eauto.
Qed.

Lemma table_field_names_with_id table_instance fields :
  fields <> [] ->
  exists rest,
    table_field_names table_instance fields true = "id" :: rest /\
    (NoDup fields -> NoDup ("id" :: rest)) /\
    (forall f, In f fields -> In f ("id" :: rest)) /\
    (forall f, In f rest -> In f fields) /\
    List.length rest =
      List.length fields - (if in_dec string_dec "id" fields then 1 else 0).
Proof.
  intros Hne. unfold table_field_names.
  destruct fields as [|f0 fields]; [congruence|].
  cbn [List.length Nat.eqb app]. set (l := f0 :: fields).
  destruct (in_dec string_dec "id" l) as [Hid | Hid].
  - destruct (list_remove_In _ _ Hid) as (l' & R). rewrite R.
    exists l'. apply list_remove_Some in R as (l1 & l2 & E & -> & Hn).
    rewrite E. repeat split.
    + intros Hnd. apply NoDup_remove in Hnd as [Hnd Hid']. now constructor.
    + intros f Hf. apply in_app_or in Hf as [Hf | [<- | Hf]]; cbn; auto;
        right; apply in_or_app; auto.
    + intros f Hf. apply in_app_or in Hf as [Hf | Hf]; apply in_or_app; cbn; auto.
    + change (S (List.length fields)) with (List.length l).
      rewrite E, !length_app. cbn. lia.
  - rewrite (list_remove_None _ _ Hid). exists l. repeat split; auto.
    + intros Hnd. now constructor.
    + intros f Hf. now right.
Qed.

Lemma NoDup_map_injective {A B} (f : A -> B) (l : list A) :
  (forall a b, f a = f b -> a = b) -> NoDup l -> NoDup (map f l).
Proof.
  intros Hf. induction 1 as [|a l Ha Hnd IH]; cbn; constructor; auto.
  intros Hin. apply in_map_iff in Hin as (b & E & Hb).
  apply Hf in E. now subst.
Qed.

Lemma column_of_injective table f g :
  column_of table f = column_of table g -> f = g.
Proof. unfold column_of. congruence. Qed.

(** X11. With [include_id] and a list of fields that is not empty, what
    [_get_table_fields] returns begins with the column ['id'], holds the
    column of every field asked for and of no other, builds nothing, and
    has no column twice when no field was asked for twice: an ['id'] in the
    list is not repeated. *)
Theorem get_table_fields_id_first :
  forall table_instance fields s cols s',
    fields <> [] ->
    _get_table_fields table_instance fields true s = (Return cols, s') ->
    s' = s /\
    exists rest,
      cols = column_of (class_mapper table_instance) "id" :: rest /\
      (NoDup fields -> NoDup cols) /\
      (forall f, In f fields ->
                 In (column_of (class_mapper table_instance) f) cols) /\
      (forall c, In c rest ->
                 exists f, In f fields /\
                           c = column_of (class_mapper table_instance) f) /\
      List.length cols =
        S (List.length fields) - (if in_dec string_dec "id" fields then 1 else 0).
Proof.
  intros tc fields s cols s' Hne. unfold _get_table_fields.
  rewrite for_each_getattr.
  destruct (table_field_names_with_id tc fields Hne)
    as (rest & -> & Hnd & Hin & Hsub & Hlen).
  destruct (forallb _ _); [|discriminate]. intros H. injection H as <- <-.
  split; [reflexivity|].
  exists (map (column_of (class_mapper tc)) rest). repeat split.
  - intros H. specialize (Hnd H). rewrite <- map_cons.
    apply NoDup_map_injective; [|assumption].
    intros f g. apply column_of_injective.
  - intros f Hf. rewrite <- map_cons. apply in_map. now apply Hin.
  - intros c Hc. apply in_map_iff in Hc as (f & <- & Hf). eauto.
  - cbn [map List.length]. rewrite length_map, Hlen.
    destruct (in_dec string_dec "id" fields) as [Hid | _]; [|lia].
    destruct fields; [contradiction|cbn; lia].
Qed.

Lemma get_table_fields_id_first_witness :
  exists rest,
    [ {| col_table := "users"; col_name := "id" |};
      {| col_table := "users"; col_name := "name" |} ] =
    column_of {| tablename := "users"; attrs := ["id"; "name"] |} "id" :: rest.
Proof.
  destruct (get_table_fields_id_first
              {| class_mapper := {| tablename := "users"; attrs := ["id"; "name"] |};
                 class_annotations := ["id"; "name"]; class_relationships := [];
                 base_annotations := [] |}
              ["name"; "id"] []
              [ {| col_table := "users"; col_name := "id" |};
                {| col_table := "users"; col_name := "name" |} ] [])
    as (_ & rest & E & _).
  - discriminate.
  - reflexivity.
  - exists rest. exact E.
Defined.





Lemma for_each_sort_clauses table pairs s :
  for_each (fun '(sortby_i, ascending_i) =>
              c <- getattr table sortby_i ;;
              ret (_sorting_direction ascending_i c)) pairs s =
  if forallb (known table) (map fst pairs)
  then (Return (map (sort_clause table) pairs), s)
  else (Raise AttributeError, s).
Proof.
  induction pairs as [|[f b] pairs IH]; cbn [for_each forallb map fst];
    [reflexivity|].
  unfold bind in *. cbn beta iota. unfold getattr at 1. fold (known table f).
  destruct (known table f); cbn [ret raise andb]; [|reflexivity].
  rewrite IH.
  now destruct (forallb (known table) (map fst pairs)).
Qed.

(** X14. Sorting by a list of fields takes a list of directions:
    [_build_sort] pairs them in order and stops at the shorter of the two
    lists, so that fields or directions in excess are dropped without an
    error, and raises [AttributeError] if one of the paired fields is not
    of the table. With a bool for [ascending] (its default value) a list of
    fields raises [TypeError], and so does one field with a list of
    directions. *)
Theorem build_sort_by_lists :
  forall self stmt table fields bs s,
    _build_sort self stmt table (SortList fields) (AscList bs) s =
      (if forallb (known table) (map fst (combine fields bs))
       then (Return (order_by stmt (map (sort_clause table) (combine fields bs))), s)
       else (Raise AttributeError, s)) /\
    List.length (combine fields bs) = Nat.min (List.length fields) (List.length bs) /\
    (forall b, _build_sort self stmt table (SortList fields) (AscBool b) s =
               (Raise TypeError, s)) /\
    (forall field, _build_sort self stmt table (SortStr field) (AscList bs) s =
                   (Raise TypeError, s)).
Proof.
  intros self stmt table fields bs s. repeat split.
  - unfold _build_sort.
    rewrite (bind_Return _ _ s s (combine fields bs)) by reflexivity.
    pose proof (for_each_sort_clauses table (combine fields bs) s) as E.
    destruct (forallb _ _).
    + now rewrite (bind_Return _ _ _ _ _ E).
    + now rewrite (bind_Raise _ _ _ _ _ E).
  - apply length_combine.
Qed.

(** X15. When [_build_sort] returns, the statement has the columns, the
    [WHERE], the [OFFSET] and the [LIMIT] it had; its [ORDER BY] has kept
    its clauses and got new ones after them: the id field ascending when
    [sortby] is [None] (whatever [ascending] is), the field in the
    direction asked when it is a str, one clause a pair when it is a
    list. *)
Theorem build_sort_keeps_the_statement :
  forall self stmt table sortby ascending s stmt' s',
    _build_sort self stmt table sortby ascending s = (Return stmt', s') ->
    s' = s /\
    select_columns stmt' = select_columns stmt /\
    where_criteria stmt' = where_criteria stmt /\
    offset_clause stmt' = offset_clause stmt /\
    limit_clause stmt' = limit_clause stmt /\
    exists clauses,
      order_by_clauses stmt' = order_by_clauses stmt ++ clauses /\
      match sortby with
      | SortNone => clauses = [Asc (column_of table (_id_name self))]
      | SortStr field =>
          exists b, ascending = AscBool b /\
                    clauses = [_sorting_direction b (column_of table field)]
      | SortList fields =>
          exists bs, ascending = AscList bs /\
                     clauses = map (sort_clause table) (combine fields bs)
      end.
Proof.
  intros self stmt table sortby ascending s stmt' s'.
  destruct sortby as [| field | fields].
  - unfold _build_sort, _id_field, getattr, bind.
    destruct (existsb _ _); cbn; [|discriminate].
    intros H. injection H as <- <-.
    repeat (split; [reflexivity|]). eexists. split; reflexivity.
  - destruct ascending as [b | bs]; [|discriminate].
    unfold _build_sort, sorting_direction_getitem, getattr, bind. cbn [ret].
    destruct (existsb _ _); cbn; [|discriminate].
    intros H. injection H as <- <-.
    repeat (split; [reflexivity|]). eexists. split; [reflexivity|].
    exists b. split; reflexivity.
  - destruct ascending as [b | bs]; [discriminate|].
    destruct (build_sort_by_lists self stmt table fields bs s) as [E _].
    rewrite E. destruct (forallb _ _); [|discriminate].
    intros H. injection H as <- <-.
    repeat (split; [reflexivity|]). eexists. split; [reflexivity|].
    exists bs. split; reflexivity.
Qed.

Lemma build_sort_keeps_the_statement_witness :
  order_by_clauses
    (order_by (select [ {| col_table := "users"; col_name := "id" |} ])
       [Desc {| col_table := "users"; col_name := "name" |}]) =
  [Desc {| col_table := "users"; col_name := "name" |}].
Proof.
  destruct (build_sort_keeps_the_statement
              {| _tables := []; _default_output := None; _id_name := "id" |}
              (select [ {| col_table := "users"; col_name := "id" |} ])
              {| tablename := "users"; attrs := ["id"; "name"] |}
              (SortStr "name") (AscBool false) []
              (order_by (select [ {| col_table := "users"; col_name := "id" |} ])
                 [Desc {| col_table := "users"; col_name := "name" |}]) []
              eq_refl)
    as (_ & _ & _ & _ & _ & clauses & E & b & Eb & ->).
  injection Eb as <-. exact E.
Defined.

(** X16. When [search] gets as far as its statement, the table is one of
    [_tables], the statement selects the id field and sorts by it
    ascending, and carries the offset and the limit given, zero included.
    Its [WHERE] is empty exactly when the search criteria is: then
    [_build_where] is not called; otherwise it holds the one condition
    [_build_where] returns, which has no [None] in it. *)
Theorem search_statement_where :
  forall self table_name search_criteria offset limit s stmt s',
    search_statement self table_name search_criteria offset limit s =
      (Return stmt, s') ->
    exists table_instance,
      assoc table_name (_tables self) = Some table_instance /\
      let c := column_of (class_mapper table_instance) (_id_name self) in
      select_columns stmt = [c] /\
      order_by_clauses stmt = [Asc c] /\
      offset_clause stmt = offset /\
      limit_clause stmt = limit /\
      (search_criteria = [] -> where_criteria stmt = [] /\ s' = s) /\
      (search_criteria <> [] ->
       exists q, where_criteria stmt = [q] /\ none_free q = true /\
                 _build_where (class_mapper table_instance) search_criteria s =
                 (Return q, s')).
Proof.
  intros self table_name cs offset limit s stmt s'.
  unfold search_statement. intros H.
  apply bind_Return_inv in H as (tc & s1 & Htc & H).
  apply dict_getitem_Return in Htc as (k & Ek & Htc & ->).
  injection Ek as <-.
  apply bind_Return_inv in H as (c & s2 & Hc & H).
  unfold _id_field, getattr in Hc, H.
  destruct (existsb _ _); [|discriminate].
  injection Hc as <- <-.
  apply bind_Return_inv in H as (stmt1 & s3 & Hw & H).
  cbn in H. injection H as <- <-.
  exists tc. split; [assumption|]. cbn zeta.
  destruct cs as [|x cs].
  - cbn in Hw. injection Hw as <- <-.
    repeat split; try (destruct offset, limit; reflexivity).
    intros Hne. congruence.
  - cbn [List.length Nat.ltb Nat.leb] in Hw.
    apply bind_Return_inv in Hw as (q & s4 & Hq & Hw).
    injection Hw as <- <-.
    repeat split; try (destruct offset, limit; reflexivity); try discriminate.
    intros _. exists q. repeat split; [destruct offset, limit; reflexivity| |assumption].
    eapply build_where_never_none; [|exact Hq]. discriminate.
Qed.

Lemma search_statement_where_witness :
  exists table_instance,
    assoc "users"
      [("users",
        {| class_mapper := {| tablename := "users"; attrs := ["id"; "name"] |};
           class_annotations := ["id"; "name"]; class_relationships := [];
           base_annotations := [] |})] = Some table_instance.
Proof.
  destruct (search_statement_where
              {| _tables :=
                   [("users",
                     {| class_mapper := {| tablename := "users"; attrs := ["id"; "name"] |};
                        class_annotations := ["id"; "name"]; class_relationships := [];
                        base_annotations := [] |})];
                 _default_output := None; _id_name := "id" |}
              "users" [] (Some 0%Z) None []
              (offset_ (order_by (select [ {| col_table := "users"; col_name := "id" |} ])
                          [Asc {| col_table := "users"; col_name := "id" |}]) 0%Z)
              [] eq_refl)
    as (table_instance & H & _).
  exists table_instance. exact H.
Defined.
